(** * Logistic-regression image classifier: the two notebooks, embedded and verified

    The repository consists of two notebooks.  [Prepare dataset] lists a
    directory, bootstraps [labels.csv], loads and resizes the images and
    splits them 70/30.  The training notebook defines [sigmoid], [predict],
    [cost], [dw], [db] and [binarize], runs gradient descent and prints the
    accuracy.

    Arithmetic.  The numpy code is written once, over an interface [Scalar]
    of the operations it uses.  Two instances are given:
    - [binary64]: IEEE-754 double precision, the arithmetic the notebooks run
      on (Rocq's primitive floats);
    - [exact]: the real numbers, the arithmetic in which the formulas of the
      notebook's markdown cells are written.
    What holds for both is proved once, from the laws [ScalarLaws].  An
    identity that binary64 only disturbs in the last bits (a cost equal to
    ln 2) is proved on [exact].  Where binary64 changes the outcome in kind on
    finite inputs (the sigmoid saturating at 0.0 and 1.0, a sum overflowing
    to infinity and then NaN, the truncated product [int(0.7 * N)]), the
    statement is settled on [binary64].

    Arrays.  A numpy array of rank at most two is stored with its shape and
    its rows.  Python scalars and rank-1 arrays are stored in the form in
    which numpy broadcasts them: a scalar as shape (1,1), a vector of length
    k as shape (1,k).

    Exceptions.  Fallible steps return a [result]; a notebook cell is a
    function on the kernel's globals that stops at the first exception and
    keeps what was assigned before it. *)

From Stdlib Require Import String.
From Stdlib Require Import List Arith ZArith Lia Bool.
From Stdlib Require Import Reals Lra.
From Stdlib Require Import Floats.
Import ListNotations.

Set Implicit Arguments.

(** ** Python exceptions and the error monad *)

Inductive pyerr : Set :=
| ZeroDivisionError
| ValueError
| IndexError
| OverflowError
| FileNotFoundError
| NotADirectoryError.

Inductive result (A : Type) : Type :=
| Ok (a : A)
| Raise (e : pyerr).

Arguments Ok {A} a.
Arguments Raise {A} e.

Definition bind {A B : Type} (c : result A) (k : A -> result B) : result B :=
  match c with
  | Ok a => k a
  | Raise e => Raise e
  end.

Declare Scope py_scope.
Delimit Scope py_scope with py.
Notation "x <- c ;; k" := (bind c (fun x => k))
  (at level 61, c at next level, right associativity) : py_scope.
Open Scope py_scope.

(** ** The scalar interface *)

Class Scalar (T : Type) : Type := {
  of_int : nat -> T;          (* a Python int used in float arithmetic *)
  half : T;                   (* the literal 0.5 *)
  add : T -> T -> T;
  sub : T -> T -> T;
  mul : T -> T -> T;
  div : T -> T -> T;          (* numpy / float division: total *)
  neg : T -> T;
  absv : T -> T;              (* np.abs *)
  exp : T -> T;               (* np.exp *)
  log : T -> T;               (* np.log *)
  gtb : T -> T -> bool;       (* x > y *)
  finite : T -> Prop          (* neither NaN nor an infinity *)
}.

Definition zero {T} `{Scalar T} : T := of_int 0.
Definition one {T} `{Scalar T} : T := of_int 1.

(** What the theorems that hold on both arithmetics rely on. *)
Class ScalarLaws (T : Type) `{Scalar T} : Prop := {
  gt_one_half : gtb one half = true;
  gt_zero_half : gtb zero half = false;
  gt_half_half : gtb half half = false;
  sub_zero_times : forall x : T, finite x -> sub zero (mul zero x) = zero;
  add_zero_times : forall x : T, finite x -> add zero (mul zero x) = zero;
  add_zero_zero : add zero zero = zero;
  sigmoid_zero : div one (add one (exp (neg zero))) = half
}.

Arguments ScalarLaws T {_}.

(** ** Arrays *)

Section Arrays.
Context {T : Type} `{Scalar T}.

Record ndarray : Type := mk_nd {
  nrows : nat;
  ncols : nat;
  data : list (list T)
}.

Definition tabulate (r c : nat) (f : nat -> nat -> T) : ndarray :=
  mk_nd r c (map (fun i => map (fun j => f i j) (seq 0 c)) (seq 0 r)).

Definition get (A : ndarray) (i j : nat) : T :=
  nth j (nth i (data A) []) zero.

Definition shape_ok (A : ndarray) : bool :=
  (length (data A) =? nrows A) &&
  forallb (fun row => length row =? ncols A) (data A).

Definition has_shape (A : ndarray) (r c : nat) : Prop :=
  nrows A = r /\ ncols A = c /\ shape_ok A = true.

(** [np.zeros((r, c))] *)
Definition zeros (r c : nat) : ndarray := tabulate r c (fun _ _ => zero).

(** A Python scalar, as it broadcasts. *)
Definition scalar (x : T) : ndarray := tabulate 1 1 (fun _ _ => x).

(** Elementwise application of a unary function (a ufunc, unary minus,
    or an operation with a Python scalar on one side). *)
Definition map_nd (f : T -> T) (A : ndarray) : ndarray :=
  tabulate (nrows A) (ncols A) (fun i j => f (get A i j)).

(** [A.T] *)
Definition transpose (A : ndarray) : ndarray :=
  tabulate (ncols A) (nrows A) (fun i j => get A j i).

(** Left-to-right sum of [f 0 .. f (n-1)]. *)
Definition sum_n (f : nat -> T) (n : nat) : T :=
  fold_left (fun acc k => add acc (f k)) (seq 0 n) zero.

(** [np.dot(A, B)] on rank-2 arrays. *)
Definition dot (A B : ndarray) : result ndarray :=
  if ncols A =? nrows B
  then Ok (tabulate (nrows A) (ncols B)
             (fun i j => sum_n (fun k => mul (get A i k) (get B k j)) (ncols A)))
  else Raise ValueError.

(** numpy's broadcasting rule for one axis. *)
Definition bdim (a b : nat) : result nat :=
  if a =? b then Ok a
  else if a =? 1 then Ok b
  else if b =? 1 then Ok a
  else Raise ValueError.

Definition bidx (extent i : nat) : nat := if extent =? 1 then 0 else i.

(** A binary elementwise operation with broadcasting. *)
Definition broadcast2 (f : T -> T -> T) (A B : ndarray) : result ndarray :=
  r <- bdim (nrows A) (nrows B) ;;
  c <- bdim (ncols A) (ncols B) ;;
  Ok (tabulate r c (fun i j =>
        f (get A (bidx (nrows A) i) (bidx (ncols A) j))
          (get B (bidx (nrows B) i) (bidx (ncols B) j)))).

(** [np.sum(A, axis=1)]: one sum per row, a vector of length [nrows A]. *)
Definition sum_axis1 (A : ndarray) : ndarray :=
  tabulate 1 (nrows A) (fun _ i => sum_n (fun j => get A i j) (ncols A)).

(** [np.mean(A)]: the sum of all entries over their number. *)
Definition mean (A : ndarray) : T :=
  div (sum_n (fun i => sum_n (fun j => get A i j) (ncols A)) (nrows A))
      (of_int (nrows A * ncols A)).

(** Python's [1 / m] on an int [m]. *)
Definition py_inv (m : nat) : result T :=
  if m =? 0 then Raise ZeroDivisionError else Ok (div one (of_int m)).

(** [l[i] = v] on a Python list *)
Fixpoint list_set {X : Type} (l : list X) (i : nat) (v : X) : list X :=
  match l, i with
  | [], _ => []
  | _ :: tl, 0 => v :: tl
  | x :: tl, S i' => x :: list_set tl i' v
  end.

(** [A[i, j] = v] *)
Definition set_item (A : ndarray) (i j : nat) (v : T) : result ndarray :=
  if (i <? nrows A) && (j <? ncols A)
  then Ok (mk_nd (nrows A) (ncols A)
             (list_set (data A) i (list_set (nth i (data A) []) j v)))
  else Raise IndexError.

(** ** The training notebook *)

(** [def sigmoid(z): return 1 / (1 + np.exp(-z))], on one entry and on
    an array. *)
Definition sigmoid1 (z : T) : T := div one (add one (exp (neg z))).
Definition sigmoid (Z : ndarray) : ndarray := map_nd sigmoid1 Z.

(** [def predict(W, X, b): Z = np.dot(W.T, X) + b; return sigmoid(Z)] *)
Definition predict (W X b : ndarray) : result ndarray :=
  WX <- dot (transpose W) X ;;
  Z <- broadcast2 add WX b ;;
  Ok (sigmoid Z).

(** [def cost(Y, A)] *)
Definition cost (Y A : ndarray) : result ndarray :=
  let m := ncols Y in
  t1 <- broadcast2 mul (map_nd neg Y) (map_nd log A) ;;
  t2 <- broadcast2 mul (map_nd (sub one) Y) (map_nd log (map_nd (sub one) A)) ;;
  loss <- broadcast2 sub t1 t2 ;;
  inv_m <- py_inv m ;;
  Ok (map_nd (mul inv_m) (sum_axis1 loss)).

(** [def dw(X, A, Y)] *)
Definition dw (X A Y : ndarray) : result ndarray :=
  let m := ncols Y in
  inv_m <- py_inv m ;;
  D <- broadcast2 sub A Y ;;
  G <- dot X (transpose D) ;;
  Ok (map_nd (mul inv_m) G).

(** [def db(A, Y)] *)
Definition db (A Y : ndarray) : result ndarray :=
  let m := ncols Y in
  inv_m <- py_inv m ;;
  D <- broadcast2 sub A Y ;;
  Ok (map_nd (mul inv_m) (sum_axis1 D)).

(** [def binarize(A)]: the loop over [range(A.shape[1])], updating [A]
    in place. *)
Definition threshold (a : T) : T := if gtb a half then one else zero.

Fixpoint binarize_loop (A : ndarray) (idx : list nat) : result ndarray :=
  match idx with
  | [] => Ok A
  | i :: rest =>
      A' <- set_item A 0 i (threshold (get A 0 i)) ;;
      binarize_loop A' rest
  end.

Definition binarize (A : ndarray) : result ndarray :=
  binarize_loop A (seq 0 (ncols A)).

End Arrays.

Arguments ndarray T : clear implicits.

(** ** The formulas of the specification *)

Section Formulas.
Context {T : Type} `{Scalar T}.

(** The linear score of example j: entry j of W^T X, plus the bias. *)
Definition score (W X : ndarray T) (b0 : T) (n j : nat) : T :=
  add (sum_n (fun k => mul (get W k 0) (get X k j)) n) b0.

(** The loss of one example: -y log a - (1 - y) log (1 - a). *)
Definition loss1 (y a : T) : T :=
  sub (mul (neg y) (log a)) (mul (sub one y) (log (sub one a))).

(** The gradients: entry i of (1/m) X (A - Y)^T, and (1/m) times the sum
    of A - Y over the examples. *)
Definition dw_formula (m : nat) (X A Y : ndarray T) (i : nat) : T :=
  mul (div one (of_int m))
      (sum_n (fun j => mul (get X i j) (sub (get A 0 j) (get Y 0 j))) m).

Definition db_formula (m : nat) (A Y : ndarray T) : T :=
  mul (div one (of_int m)) (sum_n (fun j => sub (get A 0 j) (get Y 0 j)) m).

(** The accuracy: 100 x (1 - the mean over the m examples of
    |predicted i - actual i|). *)
Definition accuracy_spec (m : nat) (predicted actual : nat -> T) : T :=
  mul (of_int 100)
      (sub one (div (sum_n (fun i => absv (sub (predicted i) (actual i))) m)
                    (of_int m))).

End Formulas.

(** ** The notebook kernel: cells, globals and exceptions *)

Section Training.
Context {T : Type} `{Scalar T}.

(** The globals of the training notebook that the training cell assigns. *)
Record globals : Type := mk_globals {
  g_W : ndarray T;
  g_b : ndarray T;
  g_costs : list (ndarray T)
}.

(** A piece of a cell: it runs on the globals and stops at the first
    exception; the globals keep whatever was assigned before it. *)
Definition cell (A : Type) : Type := globals -> globals * result A.

Definition ret {A : Type} (a : A) : cell A := fun g => (g, Ok a).

Definition cbind {A B : Type} (c : cell A) (k : A -> cell B) : cell B :=
  fun g =>
    match c g with
    | (g', Ok a) => k a g'
    | (g', Raise e) => (g', Raise e)
    end.

Definition lift {A : Type} (r : result A) : cell A := fun g => (g, r).

Definition read : cell globals := fun g => (g, Ok g).

Definition assign (f : globals -> globals) : cell unit := fun g => (f g, Ok tt).

Definition set_W (W : ndarray T) (g : globals) : globals :=
  mk_globals W (g_b g) (g_costs g).

Definition set_b (b : ndarray T) (g : globals) : globals :=
  mk_globals (g_W g) b (g_costs g).

(** [costs.append(J)] *)
Definition append_cost (J : ndarray T) (g : globals) : globals :=
  mk_globals (g_W g) (g_b g) (g_costs g ++ [J]).

(** [learning_rate * G] *)
Definition scale (learning_rate : T) (G : ndarray T) : ndarray T :=
  map_nd (mul learning_rate) G.

End Training.

Arguments globals T : clear implicits.
Arguments cell T A : clear implicits.

Declare Scope cell_scope.
Delimit Scope cell_scope with cell.
Notation "x <~ c ;; k" := (cbind c (fun x => k))
  (at level 61, c at next level, right associativity) : cell_scope.
Notation "c ;;; k" := (cbind c (fun _ => k))
  (at level 61, right associativity) : cell_scope.

Section TrainingCells.
Context {T : Type} `{Scalar T}.
Open Scope cell_scope.

(** The body of [for i in range(iterations)]. *)
Definition gd_body (learning_rate : T) (X_train y_train : ndarray T) (i : nat)
  : cell T unit :=
  g <~ read ;;
  A <~ lift (predict (g_W g) X_train (g_b g)) ;;
  J <~ lift (cost (transpose y_train) A) ;;
  (if i mod 100 =? 0 then assign (append_cost J) else ret tt : cell T unit) ;;;
  _dw <~ lift (dw X_train A (transpose y_train)) ;;
  _db <~ lift (db A (transpose y_train)) ;;
  g <~ read ;;
  W' <~ lift (broadcast2 sub (g_W g) (scale learning_rate _dw)) ;;
  assign (set_W W') ;;;
  g <~ read ;;
  b' <~ lift (broadcast2 sub (g_b g) (scale learning_rate _db)) ;;
  assign (set_b b').

(** [for i in range(start, start + n): body(i)] *)
Fixpoint for_range (body : nat -> cell T unit) (start n : nat) : cell T unit :=
  match n with
  | 0 => ret tt
  | S n' => body start ;;; for_range body (S start) n'
  end.

(** [W = np.zeros((n, 1)); b = 0; costs = []], with [n] the number of rows
    of [X_train] (the second cell of the notebook). *)
Definition init_globals (X_train : ndarray T) : globals T :=
  mk_globals (zeros (nrows X_train) 1) (scalar zero) [].

(** The training cell, with its two constants as parameters. *)
Definition train (iterations : nat) (learning_rate : T)
    (X_train y_train : ndarray T) : globals T * result unit :=
  for_range (gd_body learning_rate X_train y_train) 0 iterations
            (init_globals X_train).

(** The accuracy printed by the evaluation cell:
    [100 - np.mean(np.abs(binarize(predict(W, X, b)) - y)) * 100]. *)
Definition accuracy (W X b y : ndarray T) : result T :=
  (A <- predict W X b ;;
   predictions <- binarize A ;;
   D <- broadcast2 sub predictions y ;;
   Ok (sub (of_int 100) (mul (mean (map_nd absv D)) (of_int 100))))%py.

(** The gradients computed at the initial parameters have finite entries
    (always so in exact arithmetic; in binary64, unless a sum overflows or
    an input is NaN or infinite). *)
Definition gradients_finite (X_train y_train : ndarray T) : Prop :=
  forall A G gb,
    predict (zeros (nrows X_train) 1) X_train (scalar zero) = Ok A ->
    dw X_train A (transpose y_train) = Ok G ->
    db A (transpose y_train) = Ok gb ->
    (forall i j, i < nrows G -> j < ncols G -> finite (get G i j)) /\
    (forall i j, i < nrows gb -> j < ncols gb -> finite (get gb i j)).

(** The globals hold the initial parameters. *)
Definition at_initial_parameters (X_train : ndarray T) (g : globals T) : Prop :=
  g_W g = zeros (nrows X_train) 1 /\ g_b g = scalar zero.

(** The shapes the loop maintains. *)
Definition well_shaped (n : nat) (g : globals T) : Prop :=
  has_shape (g_W g) n 1 /\ has_shape (g_b g) 1 1.

(** The number of iterations in [start, start + k) at which the cost is
    recorded. *)
Definition recorded (start k : nat) : nat :=
  length (filter (fun i => i mod 100 =? 0) (seq start k)).

End TrainingCells.

(** ** Exact arithmetic *)

#[export] Instance exact : Scalar R := {|
  of_int := INR;
  half := (1 / 2)%R;
  add := Rplus;
  sub := Rminus;
  mul := Rmult;
  div := Rdiv;
  neg := Ropp;
  absv := Rabs;
  exp := Rtrigo_def.exp;
  log := ln;
  gtb := fun x y => if Rlt_dec y x then true else false;
  finite := fun _ => True
|}.

(** ** IEEE-754 binary64 arithmetic *)

(** [np.exp] and [np.log] come from the C library.  Neither is part of the
    repository, nor of IEEE-754's correctly rounded operations; the model
    below evaluates both to 160 fractional bits and rounds once, to nearest
    even, and takes the special cases (NaN, infinities, zeros, overflow and
    underflow) from C99 Annex F.  Results that depend on the last bit of an
    ordinary value are never relied upon: the range of the sigmoid uses only
    that the exponential of anything but a NaN is a zero, a positive number
    or +infinity. *)
Module Libm.

Definition P : Z := 160.

(** floor (ln 2 * 2^P) *)
Definition LN2 : Z := 1013035739299659071135698605846798551586536899366.

(** Sum of the terms r^i / i! that follow [term], in fixed point. *)
Fixpoint exp_series (fuel : nat) (r term acc i : Z) : Z :=
  match fuel with
  | O => acc
  | S fuel' =>
      let term' := (Z.shiftr (term * r) P / i)%Z in
      exp_series fuel' r term' (acc + term')%Z (i + 1)%Z
  end.

(** A finite binary64 value in fixed point, and back (one rounding). *)
Definition to_fix (s : bool) (m : positive) (e : Z) : Z :=
  let a := Z.shiftl (Zpos m) (e + P) in
  if s then Z.opp a else a.

Definition of_fix (v e : Z) : float :=
  SF2Prim (binary_normalize prec emax v e false).

Definition exp64 (x : float) : float :=
  match Prim2SF x with
  | S754_nan => nan
  | S754_infinity s => if s then 0%float else infinity
  | S754_zero _ => 1%float
  | S754_finite s m e =>
      if (0x1.62e42fefa39efp+9 <? x)%float then infinity   (* x > ln(DBL_MAX) *)
      else if (x <? -0x1.749999999999ap+9)%float then 0%float    (* x < -745.2 *)
      else
        let xf := to_fix s m e in
        let k := (xf / LN2)%Z in
        let r := (xf mod LN2)%Z in
        of_fix (exp_series 60 r (Z.shiftl 1 P) (Z.shiftl 1 P) 1) (k - P)
  end.

(** Sum of the terms t^(2j+1) / (2j+1) that follow [pow], in fixed point. *)
Fixpoint atanh_series (fuel : nat) (t2 pow acc i : Z) : Z :=
  match fuel with
  | O => acc
  | S fuel' =>
      let pow' := Z.shiftr (pow * t2) P in
      atanh_series fuel' t2 pow' (acc + pow' / i)%Z (i + 2)%Z
  end.

Definition log64 (x : float) : float :=
  match Prim2SF x with
  | S754_nan => nan
  | S754_infinity s => if s then nan else infinity
  | S754_zero _ => neg_infinity
  | S754_finite true _ _ => nan
  | S754_finite false m e =>
      let d := Z.log2 (Zpos m) in
      let t := (Z.shiftl (Zpos m - Z.shiftl 1 d) P / (Zpos m + Z.shiftl 1 d))%Z in
      let a := atanh_series 60 (Z.shiftr (t * t) P) t t 3 in
      of_fix ((e + d) * LN2 + 2 * a)%Z (- P)
  end.

End Libm.

(** [float(n)] for a Python int that fits a machine word (every array
    length does). *)
Definition float_of_nat (n : nat) : float :=
  PrimFloat.of_uint63 (Uint63.of_Z (Z.of_nat n)).

Definition is_finite64 (x : float) : bool :=
  negb (PrimFloat.is_nan x || PrimFloat.is_infinity x).

#[export] Instance binary64 : Scalar float := {|
  of_int := float_of_nat;
  half := 0.5%float;
  add := PrimFloat.add;
  sub := PrimFloat.sub;
  mul := PrimFloat.mul;
  div := PrimFloat.div;
  neg := PrimFloat.opp;
  absv := PrimFloat.abs;
  exp := Libm.exp64;
  log := Libm.log64;
  gtb := fun x y => PrimFloat.ltb y x;
  finite := fun x => is_finite64 x = true
|}.

(** The double nearest to ln 2. *)
Definition ln2_binary64 : float := 0x1.62e42fefa39efp-1.

(** [int(x)] on a Python float: truncation towards zero. *)
Definition py_int (x : float) : result Z :=
  match Prim2SF x with
  | S754_zero _ => Ok 0%Z
  | S754_finite s m e =>
      let a := if (0 <=? e)%Z then Z.shiftl (Zpos m) e
               else Z.shiftr (Zpos m) (- e) in
      Ok (if s then Z.opp a else a)
  | S754_infinity _ => Raise OverflowError
  | S754_nan => Raise ValueError
  end.

(** ** Vocabulary for binary64 rounding

    [SpecFloat] specifies an operation of IEEE-754 as: compute a mantissa, an
    exponent and whether something was discarded; shift the mantissa right
    to 53 digits; round to nearest even.  The predicates below say where a
    mantissa at an exponent lies, in integers. *)

Section RoundingVocabulary.
Local Open Scope Z_scope.

(** A shift record is inexact when its round bit or its sticky bit is set. *)
Definition inexact (mrs : shr_record) : bool := shr_r mrs || shr_s mrs.

Definition loc_inexact (l : location) : bool :=
  match l with loc_Exact => false | loc_Inexact _ => true end.

(** The value held by the mantissa [m] at the exponent [e], with something
    discarded below it when [inex] is set, is at most [Bm * 2^Be]. *)
Definition below (m e : Z) (inex : bool) (Bm Be : Z) : Prop :=
  e <= Be /\
  (if inex then m < Bm * 2 ^ (Be - e) else m <= Bm * 2 ^ (Be - e)).

(** [m * 2^e] is at least the integer [B]. *)
Definition at_least (m e B : Z) : Prop :=
  if e <=? 0 then B * 2 ^ (- e) <= m else B <= m * 2 ^ e.



End RoundingVocabulary.

(** ** The preparation notebook *)

Module Prepare.

(** A row of the data frame, hence of [labels.csv]; [to_csv] also writes
    the row's position as a first, unnamed column. *)
Record row : Set := mk_row {
  file_name : string;
  is_guitar : Z
}.

Inductive node : Set :=
| Csv (rows : list row)          (* a CSV file with the two columns *)
| Blob                           (* any other regular file *)
| Directory (entries : list string).

(** The working directory of the notebook: relative path to node. *)
Definition filesystem : Set := string -> option node.

Definition images_dir : string := "./images".

(** ['./labels.csv'] and ['labels.csv'] name the same file. *)
Definition normpath (p : string) : string :=
  if prefix "./" p then substring 2 (String.length p - 2) p else p.

Definition lookup (fs : filesystem) (p : string) : option node :=
  fs (normpath p).

Definition os_path_exists (fs : filesystem) (p : string) : bool :=
  match lookup fs p with
  | Some _ => true
  | None => false
  end.

Definition os_listdir (fs : filesystem) (p : string) : result (list string) :=
  match lookup fs p with
  | Some (Directory entries) => Ok entries
  | Some _ => Raise NotADirectoryError
  | None => Raise FileNotFoundError
  end.

Definition write_file (fs : filesystem) (p : string) (n : node) : filesystem :=
  fun q => if String.eqb q (normpath p) then Some n else fs q.

Definition read_csv (fs : filesystem) (p : string) : result (list row) :=
  match lookup fs p with
  | Some (Csv rows) => Ok rows
  | Some (Directory _) => Raise NotADirectoryError
  | Some Blob => Raise ValueError
  | None => Raise FileNotFoundError
  end.

(** [df.append(r, ignore_index=True)] *)
Definition df_append (df : list row) (r : row) : list row := df ++ [r].

(** Cell 2: bootstrap [labels.csv].  The result is what the cell prints. *)
Definition label_cell (fs : filesystem) : filesystem * result string :=
  if negb (os_path_exists fs "labels.csv") then
    match os_listdir fs images_dir with
    | Raise e => (fs, Raise e)
    | Ok names =>
        let df := fold_left
                    (fun df filename => df_append df (mk_row filename 0))
                    names [] in
        (write_file fs "labels.csv" (Csv df), Ok "Labels saved"%string)
    end
  else (fs, Ok "labels.csv exists. Skipping"%string).

Section Ingestion.
(** A decoded picture resampled to 100 x 100 x 3, and the decoder
    ([plt.imread] followed by [skimage.transform.resize]), which raises on a
    missing or malformed file. *)
Variable image : Type.
Variable imread_resize : string -> result image.

(** ['%s/%s' % (images_dir, filename)] *)
Definition image_path (filename : string) : string :=
  (images_dir ++ "/" ++ filename)%string.

(** The first loop of cell 3: [images = np.append([image], images, axis=0)]. *)
Fixpoint load_images (names : list string) (images : list image)
  : result (list image) :=
  match names with
  | [] => Ok images
  | filename :: rest =>
      image <- imread_resize (image_path filename) ;;
      load_images rest ([image] ++ images)
  end.

(** The second loop of cell 3: [labels = np.append([is_guitar], labels)]. *)
Fixpoint load_labels (column : list Z) (labels : list Z) : list Z :=
  match column with
  | [] => labels
  | g :: rest => load_labels rest ([g] ++ labels)
  end.

(** Cell 3. *)
Definition ingest_cell (fs : filesystem) : result (list image * list Z) :=
  data <- read_csv fs "./labels.csv" ;;
  images <- load_images (map file_name data) [] ;;
  Ok (images, load_labels (map is_guitar data) []).

(** Every row's picture decodes: [decoded] lists the results in row order. *)
Definition decodes (data : list row) (decoded : list image) : Prop :=
  Forall2 (fun r img => imread_resize (image_path (file_name r)) = Ok img)
          data decoded.

End Ingestion.

(** [int(0.7 * images_count)] *)
Definition training_examples_count (images_count : nat) : result Z :=
  py_int (0x1.6666666666666p-1 * float_of_nat images_count)%float.

(** A slice bound, as Python normalises it: negative bounds count from the
    end, and every bound is clipped to the length. *)
Definition slice_bound (len : nat) (k : Z) : nat :=
  if (k <? 0)%Z then Z.to_nat (Z.of_nat len + k) else Nat.min (Z.to_nat k) len.

(** [np.split(a, [k])] along the first axis: [a[:k]] and [a[k:]]. *)
Definition np_split {A : Type} (a : list A) (k : Z) : list A * list A :=
  let i := slice_bound (length a) k in (firstn i a, skipn i a).

Record dataset (image : Type) : Type := mk_dataset {
  train_count : Z;
  test_count : Z;
  training_set_x : list image;
  test_set_x : list image;
  training_set_y : list Z;
  test_set_y : list Z
}.

(** Cell 4. *)
Definition split_cell {image : Type} (images : list image) (labels : list Z)
  : result (dataset image) :=
  let images_count := length images in
  training_examples_count <- training_examples_count images_count ;;
  let test_examples_count := (Z.of_nat images_count - training_examples_count)%Z in
  let '(training_set_x, test_set_x) := np_split images training_examples_count in
  let '(training_set_y, test_set_y) := np_split labels training_examples_count in
  Ok (mk_dataset training_examples_count test_examples_count
        training_set_x test_set_x training_set_y test_set_y).

End Prepare.

(** ** The training notebook: the reshape cell *)

Section Reshape.
Context {T : Type} `{Scalar T}.

(** A rank-4 numpy array, as [h5py] returns the pictures: its shape and its
    buffer, in C order. *)
Record ndarray4 : Type := mk_nd4 {
  shape0 : nat;
  shape1 : nat;
  shape2 : nat;
  shape3 : nat;
  buffer : list T
}.

Definition nd4_ok (A : ndarray4) : Prop :=
  length (buffer A) = shape0 A * (shape1 A * shape2 A * shape3 A).

(** [A[j, r, q, ch]] *)
Definition get4 (A : ndarray4) (j r q ch : nat) : T :=
  nth (((j * shape1 A + r) * shape2 A + q) * shape3 A + ch) (buffer A) zero.

(** [a.reshape(r, c)] on the buffer of [a]: the same entries, row after
    row; the sizes must agree. *)
Definition reshape (buf : list T) (r c : nat) : result (ndarray T) :=
  if length buf =? r * c
  then Ok (tabulate r c (fun i j => nth (i * c + j) buf zero))
  else Raise ValueError.

(** Cell 2 of the training notebook; a rank-1 array of labels is its
    buffer. *)
Definition reshape_cell (training_set_x_input : ndarray4)
    (training_set_y_input : list T) (test_set_x_input : ndarray4)
    (test_set_y_input : list T)
  : result (ndarray T * ndarray T * ndarray T * ndarray T) :=
  let n := shape1 training_set_x_input * shape2 training_set_x_input
           * shape3 training_set_x_input in
  let m_train := shape0 training_set_x_input in
  let m_test := shape0 test_set_x_input in
  X_train <- reshape (buffer training_set_x_input) m_train n ;;
  y_train <- reshape training_set_y_input m_train 1 ;;
  X_test <- reshape (buffer test_set_x_input) m_test n ;;
  y_test <- reshape test_set_y_input m_test 1 ;;
  Ok (transpose X_train, y_train, transpose X_test, y_test).

End Reshape.

Arguments ndarray4 T : clear implicits.

(** ** The cost as a function of the parameters *)

(** [W] with its weight [i] replaced by [t]. *)
Definition with_weight (W : ndarray R) (i : nat) (t : R) : ndarray R :=
  tabulate (nrows W) (ncols W)
    (fun k l => if (k =? i) && (l =? 0) then t else get W k l).

(** The number J = cost(Y, predict(W, X, b)); 0 when a step raises. *)
Definition cost_of (W X Y : ndarray R) (b0 : R) : R :=
  match (A <- predict W X (scalar b0) ;; cost Y A) with
  | Ok J => get J 0 0
  | Raise _ => 0%R
  end.


(** ** Sample inputs *)

(** A row of three probabilities, one of them exactly 0.5. *)
Definition sample_probabilities : ndarray float :=
  mk_nd 1 3 [[0.25; 0.5; 0.75]%float].


(** Finite inputs whose score is infinity - infinity. *)
Definition overflowing_W : ndarray float :=
  mk_nd 2 1 [[0x1p1023]; [0x1p1023]]%float.
Definition overflowing_X : ndarray float := mk_nd 2 1 [[2]; [-2]]%float.

(** Two features, three examples, over the reals. *)
Definition real_W : ndarray R := mk_nd 2 1 [[1]; [2]]%R.
Definition real_X : ndarray R := mk_nd 2 3 [[1; 0; 2]; [0; 1; 3]]%R.
Definition real_Y : ndarray R := mk_nd 1 3 [[1; 0; 1]]%R.

(** One feature, four examples, every entry the finite value 2^1023; all
    labels 0. *)
Definition big_X : ndarray float :=
  mk_nd 1 4 [[0x1p1023; 0x1p1023; 0x1p1023; 0x1p1023]%float].
Definition zero_labels : ndarray float :=
  mk_nd 4 1 [[0]; [0]; [0]; [0]]%float.

(** Two examples classified perfectly: scores 10 and -10, labels 1 and 0. *)
Definition perfect_W : ndarray float := mk_nd 1 1 [[1]%float].
Definition perfect_X : ndarray float := mk_nd 1 2 [[10; -10]%float].
Definition perfect_y : ndarray float := mk_nd 2 1 [[1]; [0]]%float.

(** The scenario of the specification: four 2 x 2 x 1 pictures, two of
    each class, flattened into the columns of X. *)
Definition scenario_X : ndarray float :=
  mk_nd 4 4 [[0.5; 1; 0; 0.25]; [0.25; 0; 1; 0.5];
             [1; 0.75; 0.5; 0]; [0; 0.5; 0.25; 1]]%float.
Definition scenario_y : ndarray float :=
  mk_nd 4 1 [[1]; [1]; [0]; [0]]%float.

(** A working directory with two pictures and no label file. *)
Definition fresh_directory : Prepare.filesystem :=
  fun p =>
    if String.eqb p "images" then Some (Prepare.Directory ["a.jpg"; "b.jpg"]%string)
    else if String.eqb p "images/a.jpg" then Some Prepare.Blob
    else if String.eqb p "images/b.jpg" then Some Prepare.Blob
    else None.

(** A working directory that holds only a label file of two rows. *)
Definition two_rows : Prepare.filesystem :=
  fun p =>
    if String.eqb p "labels.csv"
    then Some (Prepare.Csv [Prepare.mk_row "a.jpg" 1; Prepare.mk_row "b.jpg" 0])
    else None.

(** Two 1 x 2 x 2 training pictures and one test picture, with their
    labels, as the dataset file holds them. *)
Definition tiny_train_x : ndarray4 float :=
  mk_nd4 2 1 2 2 [0.5; 0.25; 1; 0; 0; 0.75; 0.25; 1]%float.
Definition tiny_train_y : list float := [1; 0]%float.
Definition tiny_test_x : ndarray4 float :=
  mk_nd4 1 1 2 2 [1; 1; 0; 0.5]%float.
Definition tiny_test_y : list float := [1]%float.

(** A prediction that has saturated at its label. *)
Definition saturated_A : ndarray float := mk_nd 1 2 [[0.75; 1]%float].
Definition saturated_Y : ndarray float := mk_nd 1 2 [[1; 1]%float].

(** Binarized predictions and labels over the reals: three examples. *)
Definition real_b : ndarray R := mk_nd 1 1 [[0]]%R.
Definition real_labels : ndarray R := mk_nd 3 1 [[1]; [0]; [1]]%R.

(** Two rows of pixels; only the first is a row of probabilities. *)
Definition two_row_array : ndarray float :=
  mk_nd 2 2 [[0.75; 0.25]; [0.75; 0.25]]%float.

(** A decoder that knows one picture only. *)
Definition only_a (path : string) : result string :=
  if String.eqb path "./images/a.jpg" then Ok "picture a"%string
  else Raise FileNotFoundError.

(** * Properties *)

(** ** Arrays are determined by their shape and their entries *)

Section ArrayFacts.
Context {T : Type} `{Scalar T}.

Lemma nth_map_seq (X : Type) (f : nat -> X) (n i : nat) (d : X) :
  i < n -> nth i (map f (seq 0 n)) d = f i.
Proof.
  intros Hi.
  rewrite (nth_indep _ d (f 0)) by (rewrite length_map, length_seq; exact Hi).
  rewrite (map_nth f (seq 0 n) 0 i), seq_nth by exact Hi.
  reflexivity.
Qed.

Lemma get_tabulate (r c : nat) (f : nat -> nat -> T) (i j : nat) :
  i < r -> j < c -> get (tabulate r c f) i j = f i j.
Proof.
  intros Hi Hj. unfold get, tabulate; simpl.
  rewrite (nth_map_seq (fun i => map (fun j => f i j) (seq 0 c))) by exact Hi.
  apply nth_map_seq; exact Hj.
Qed.

Lemma tabulate_ext (r c : nat) (f g : nat -> nat -> T) :
  (forall i j, i < r -> j < c -> f i j = g i j) ->
  tabulate r c f = tabulate r c g.
Proof.
  intros E. unfold tabulate. f_equal.
  apply map_ext_in; intros i Hi. apply in_seq in Hi.
  apply map_ext_in; intros j Hj. apply in_seq in Hj.
  apply E; lia.
Qed.

Lemma has_shape_tabulate (r c : nat) (f : nat -> nat -> T) :
  has_shape (tabulate r c f) r c.
Proof.
  repeat split. unfold shape_ok, tabulate; simpl.
  rewrite length_map, length_seq, Nat.eqb_refl; simpl.
  apply forallb_forall. intros row Hrow.
  apply in_map_iff in Hrow. destruct Hrow as [i [<- _]].
  rewrite length_map, length_seq. apply Nat.eqb_refl.
Qed.

Lemma get_map_nd (f : T -> T) (A : ndarray T) (i j : nat) :
  i < nrows A -> j < ncols A -> get (map_nd f A) i j = f (get A i j).
Proof. intros Hi Hj. unfold map_nd. apply get_tabulate; assumption. Qed.

Lemma has_shape_zeros (r c : nat) : has_shape (zeros r c) r c.
Proof. apply has_shape_tabulate. Qed.

Lemma has_shape_scalar (x : T) : has_shape (scalar x) 1 1.
Proof. apply has_shape_tabulate. Qed.

Lemma list_eq_map_seq (X : Type) (l : list X) (d : X) :
  l = map (fun i => nth i l d) (seq 0 (length l)).
Proof.
  apply (nth_ext _ _ d d).
  - rewrite length_map, length_seq; reflexivity.
  - intros i Hi. rewrite nth_map_seq by exact Hi. reflexivity.
Qed.

(** An array of shape (r, c) is the table of its entries. *)
Lemma tabulate_get (A : ndarray T) (r c : nat) :
  has_shape A r c -> A = tabulate r c (get A).
Proof.
  destruct A as [r0 c0 rows]. unfold has_shape, shape_ok; simpl.
  intros [-> [-> Hok]]. apply andb_prop in Hok. destruct Hok as [Hlen Hrows].
  apply Nat.eqb_eq in Hlen. rewrite forallb_forall in Hrows.
  unfold tabulate. f_equal.
  rewrite (list_eq_map_seq rows []) at 1. rewrite Hlen.
  apply map_ext_in. intros i Hi. apply in_seq in Hi.
  assert (Hc : length (nth i rows []) = c).
  { apply Nat.eqb_eq, Hrows, nth_In. lia. }
  rewrite (list_eq_map_seq (nth i rows []) zero) at 1. rewrite Hc.
  reflexivity.
Qed.

Lemma list_set_map_seq_from (X : Type) (f : nat -> X) (n s i : nat) (v : X) :
  list_set (map f (seq s n)) i v =
  map (fun k => if k =? s + i then v else f k) (seq s n).
Proof.
  revert s i. induction n as [|n IH]; intros s i; simpl; [reflexivity|].
  destruct i as [|i]; simpl.
  - rewrite Nat.add_0_r, Nat.eqb_refl. f_equal.
    apply map_ext_in. intros k Hk. apply in_seq in Hk.
    destruct (Nat.eqb_spec k s); [lia | reflexivity].
  - destruct (Nat.eqb_spec s (s + S i)); [lia|]. f_equal.
    rewrite IH. apply map_ext. intros k.
    replace (S s + i) with (s + S i) by lia. reflexivity.
Qed.

Lemma list_set_map_seq (X : Type) (f : nat -> X) (n i : nat) (v : X) :
  list_set (map f (seq 0 n)) i v =
  map (fun k => if k =? i then v else f k) (seq 0 n).
Proof. apply (list_set_map_seq_from f n 0 i v). Qed.

End ArrayFacts.

(** ** Proof tools *)

(** Decide every comparison of naturals in the goal. *)
Ltac nat_cases :=
  repeat match goal with
         | |- context [?a =? ?b] => destruct (Nat.eqb_spec a b)
         | |- context [?a <=? ?b] => destruct (Nat.leb_spec a b)
         | |- context [?a <? ?b] => destruct (Nat.ltb_spec a b)
         end;
  subst; try lia; cbn [andb orb negb]; try reflexivity.

Lemma bind_ok {A B : Type} (c : result A) (k : A -> result B) (v : B) :
  bind c k = Ok v -> exists a, c = Ok a /\ k a = Ok v.
Proof.
  destruct c as [a | e]; simpl; intros E; [|discriminate].
  exists a. split; [reflexivity | exact E].
Qed.

(** Take a successful sequence of binds apart. *)
Ltac bind_inv E :=
  repeat match type of E with
         | bind _ _ = Ok _ =>
             let a := fresh "a" in
             let Ea := fresh "E" a in
             apply bind_ok in E; destruct E as [a [Ea E]]
         end.

(** ** The two arithmetics obey the shared laws *)

#[export] Instance exact_laws : ScalarLaws R.
Proof.
  split; unfold gtb, one, zero, half, of_int, add, sub, mul, div, exp, neg,
    exact; simpl.
  - destruct (Rlt_dec (1 / 2) 1); [reflexivity | lra].
  - destruct (Rlt_dec (1 / 2) 0); [lra | reflexivity].
  - destruct (Rlt_dec (1 / 2) (1 / 2)); [lra | reflexivity].
  - intros x _. ring.
  - intros x _. ring.
  - ring.
  - rewrite Ropp_0, exp_0. lra.
Qed.

Lemma finite64_cases (x : float) :
  is_finite64 x = true ->
  (exists s, Prim2SF x = S754_zero s) \/
  (exists s m e, Prim2SF x = S754_finite s m e).
Proof.
  unfold is_finite64, PrimFloat.is_nan, PrimFloat.is_infinity.
  rewrite !eqb_spec, abs_spec.
  change (Prim2SF infinity) with (S754_infinity false).
  destruct (Prim2SF x) as [s | s | | s m e] eqn:E.
  - intros _. left. exists s. reflexivity.
  - destruct s; discriminate.
  - discriminate.
  - intros _. right. exists s, m, e. reflexivity.
Qed.

#[export] Instance binary64_laws : ScalarLaws float.
Proof.
  split.
  - reflexivity.
  - reflexivity.
  - reflexivity.
  - intros x Hx. apply Prim2SF_inj.
    change (@zero float binary64) with 0%float.
    change (@sub float binary64) with PrimFloat.sub.
    change (@mul float binary64) with PrimFloat.mul.
    rewrite sub_spec, mul_spec.
    change (Prim2SF 0) with (S754_zero false).
    destruct (finite64_cases x Hx) as [[s E] | [s [m [e E]]]];
      rewrite E; destruct s; reflexivity.
  - intros x Hx. apply Prim2SF_inj.
    change (@zero float binary64) with 0%float.
    change (@add float binary64) with PrimFloat.add.
    change (@mul float binary64) with PrimFloat.mul.
    rewrite add_spec, mul_spec.
    change (Prim2SF 0) with (S754_zero false).
    destruct (finite64_cases x Hx) as [[s E] | [s [m [e E]]]];
      rewrite E; destruct s; reflexivity.
  - reflexivity.
  - reflexivity.
Qed.

(** ** Shapes and entries of the numpy operations *)

Section Operations.
Context {T : Type} `{Scalar T}.

Lemma fold_sum_ext (f g : nat -> T) (l : list nat) (a : T) :
  (forall k, In k l -> f k = g k) ->
  fold_left (fun acc k => add acc (f k)) l a =
  fold_left (fun acc k => add acc (g k)) l a.
Proof.
  revert a. induction l as [|k l IH]; intros a E; simpl; [reflexivity|].
  rewrite (E k) by (left; reflexivity).
  apply IH. intros k' Hk'. apply E. right. exact Hk'.
Qed.

Lemma sum_n_ext (f g : nat -> T) (n : nat) :
  (forall k, k < n -> f k = g k) -> sum_n f n = sum_n g n.
Proof.
  intros E. apply fold_sum_ext. intros k Hk. apply in_seq in Hk.
  apply E. lia.
Qed.

Lemma bdim_same (a : nat) : bdim a a = Ok a.
Proof. unfold bdim. rewrite Nat.eqb_refl. reflexivity. Qed.

Lemma bdim_one_l (a : nat) : bdim 1 a = Ok a.
Proof. unfold bdim. destruct (Nat.eqb_spec 1 a); subst; reflexivity. Qed.

Lemma bdim_one_r (a : nat) : bdim a 1 = Ok a.
Proof.
  unfold bdim. destruct (Nat.eqb_spec a 1) as [->|]; [reflexivity|].
  reflexivity.
Qed.

Lemma bidx_lt (extent i : nat) : i < extent -> bidx extent i = i.
Proof. unfold bidx. intros Hi. destruct (Nat.eqb_spec extent 1); lia. Qed.

(** Operands of one shape: no broadcasting takes place. *)
Lemma broadcast2_same (f : T -> T -> T) (A B : ndarray T) :
  nrows A = nrows B -> ncols A = ncols B ->
  broadcast2 f A B =
  Ok (tabulate (nrows A) (ncols A) (fun i j => f (get A i j) (get B i j))).
Proof.
  intros Er Ec. unfold broadcast2.
  rewrite <- Er, <- Ec, !bdim_same. cbn [bind]. f_equal.
  apply tabulate_ext. intros i j Hi Hj.
  rewrite !bidx_lt by assumption. reflexivity.
Qed.

(** A row (1,m) against a column (r,1): all pairs. *)
Lemma broadcast2_row_col (f : T -> T -> T) (A B : ndarray T) :
  nrows A = 1 -> ncols B = 1 ->
  broadcast2 f A B =
  Ok (tabulate (nrows B) (ncols A) (fun i j => f (get A 0 j) (get B i 0))).
Proof.
  intros Er Ec. unfold broadcast2.
  rewrite Er, Ec, bdim_one_l, bdim_one_r. cbn [bind]. f_equal.
  apply tabulate_ext. intros i j Hi Hj.
  unfold bidx. cbn [Nat.eqb].
  destruct (Nat.eqb_spec (ncols A) 1), (Nat.eqb_spec (nrows B) 1);
    repeat (f_equal; try lia).
Qed.

(** An array against a scalar. *)
Lemma broadcast2_scalar (f : T -> T -> T) (A : ndarray T) (x : T) :
  broadcast2 f A (scalar x) =
  Ok (tabulate (nrows A) (ncols A) (fun i j => f (get A i j) x)).
Proof.
  unfold broadcast2, scalar. cbn [nrows ncols tabulate].
  rewrite !bdim_one_r. cbn [bind]. f_equal.
  apply tabulate_ext. intros i j Hi Hj.
  rewrite !bidx_lt by assumption.
  unfold bidx. cbn [Nat.eqb].
  rewrite (get_tabulate (fun _ _ => x)) by lia. reflexivity.
Qed.

Lemma py_inv_pos (m : nat) : m <> 0 -> py_inv m = Ok (div one (of_int m)).
Proof. unfold py_inv. intros Hm. destruct (Nat.eqb_spec m 0); [lia | reflexivity]. Qed.

End Operations.

(** ** Rounding in binary64

    What [shr] discards, and why rounding to nearest never crosses a
    representable bound.  These are the facts behind the range of the
    sigmoid and behind [int(0.7 * N)]. *)

Section Rounding.
Local Open Scope Z_scope.
Local Unset Implicit Arguments.

Lemma digits2_size (p : positive) : digits2_pos p = Pos.size p.
Proof. induction p; simpl; congruence. Qed.

Lemma fexp_eq (x : Z) : fexp prec emax x = Z.max (x - 53) (-1074).
Proof. reflexivity. Qed.


Lemma pow_size_le (p : positive) : 2 ^ Zpos (Pos.size p) <= 2 * Zpos p.
Proof.
  pose proof (Pos.size_le p) as Hs.
  rewrite <- Pos2Z.inj_pow. change (2 * Zpos p) with (Zpos (p~0)).
  apply Pos2Z.pos_le_pos. exact Hs.
Qed.

Lemma Zdigits2_le (m D : Z) : 0 <= m < 2 ^ D -> 0 <= D -> Zdigits2 m <= D.
Proof.
  intros [Hm0 Hm] HD. destruct m as [|p|p]; [simpl; lia | | lia].
  change (Zdigits2 (Zpos p)) with (Zpos (digits2_pos p)). rewrite digits2_size.
  pose proof (pow_size_le p) as Hs.
  assert (Hlt : 2 ^ Zpos (Pos.size p) < 2 ^ (D + 1)).
  { replace (D + 1) with (Z.succ D) by lia. rewrite Z.pow_succ_r by lia. lia. }
  apply Z.pow_lt_mono_r_iff in Hlt; lia.
Qed.

Lemma Zdigits2_lower (m : Z) : 0 < m -> 2 ^ (Zdigits2 m - 1) <= m.
Proof.
  intros Hm. destruct m as [|p|p]; try lia.
  change (Zdigits2 (Zpos p)) with (Zpos (digits2_pos p)). rewrite digits2_size.
  pose proof (pow_size_le p) as H2.
  replace (Zpos (Pos.size p)) with (Z.succ (Zpos (Pos.size p) - 1)) in H2 by lia.
  rewrite Z.pow_succ_r in H2 by lia. lia.
Qed.

Lemma iter_pos_nat {A : Type} (f : A -> A) (p : positive) (x : A) :
  iter_pos f p x = Nat.iter (Pos.to_nat p) f x.
Proof.
  revert x. induction p as [p IH | p IH |]; intros x.
  - rewrite Pos2Nat.inj_xI. cbn [iter_pos]. rewrite !IH.
    replace (S (2 * Pos.to_nat p)) with (Pos.to_nat p + S (Pos.to_nat p))%nat by lia.
    rewrite Nat.iter_add, Nat.iter_succ_r. reflexivity.
  - rewrite Pos2Nat.inj_xO. cbn [iter_pos]. rewrite !IH.
    replace (2 * Pos.to_nat p)%nat with (Pos.to_nat p + Pos.to_nat p)%nat by lia.
    rewrite Nat.iter_add. reflexivity.
  - reflexivity.
Qed.

Lemma shr_record_of_loc_m (m : Z) (l : location) :
  shr_m (shr_record_of_loc m l) = m.
Proof. destruct l as [|[]]; reflexivity. Qed.

Lemma inexact_of_loc (m : Z) (l : location) :
  inexact (shr_record_of_loc m l) = loc_inexact l.
Proof. destruct l as [|[]]; reflexivity. Qed.

(** One shift: the mantissa is halved, and its last bit joins what was
    discarded. *)
Lemma shr_1_sem (mrs : shr_record) :
  0 <= shr_m mrs ->
  shr_m mrs = 2 * shr_m (shr_1 mrs) + Z.b2z (Z.odd (shr_m mrs)) /\
  inexact (shr_1 mrs) = Z.odd (shr_m mrs) || inexact mrs /\
  0 <= shr_m (shr_1 mrs).
Proof.
  destruct mrs as [m r s]. unfold inexact. simpl. intros Hm.
  destruct m as [|[p|p|]|p]; simpl; repeat split; try lia;
    destruct r, s; reflexivity.
Qed.

Lemma shr_iter_sem (n : nat) (mrs : shr_record) :
  0 <= shr_m mrs ->
  exists rem,
    0 <= rem < 2 ^ Z.of_nat n /\
    shr_m mrs = shr_m (Nat.iter n shr_1 mrs) * 2 ^ Z.of_nat n + rem /\
    inexact (Nat.iter n shr_1 mrs) = negb (rem =? 0) || inexact mrs /\
    0 <= shr_m (Nat.iter n shr_1 mrs).
Proof.
  intros Hm. induction n as [|n IH].
  - exists 0. simpl. repeat split; lia.
  - destruct IH as [rem [Hrem [Em [Ei Hpos]]]].
    destruct (shr_1_sem (Nat.iter n shr_1 mrs) Hpos) as [E2 [Ei2 Hpos2]].
    change (Nat.iter (S n) shr_1 mrs) with (shr_1 (Nat.iter n shr_1 mrs)).
    set (x := Nat.iter n shr_1 mrs) in *.
    set (b := Z.odd (shr_m x)) in *.
    exists (Z.b2z b * 2 ^ Z.of_nat n + rem).
    rewrite Nat2Z.inj_succ, Z.pow_succ_r by lia.
    assert (Hp : 0 < 2 ^ Z.of_nat n) by (apply Z.pow_pos_nonneg; lia).
    repeat split.
    + destruct b; cbn [Z.b2z]; lia.
    + destruct b; cbn [Z.b2z]; lia.
    + rewrite Em, E2. ring.
    + rewrite Ei2, Ei. destruct b; cbn [Z.b2z orb].
      * destruct (Z.eqb_spec (1 * 2 ^ Z.of_nat n + rem) 0); [lia|]. reflexivity.
      * rewrite Z.mul_0_l, Z.add_0_l. reflexivity.
    + exact Hpos2.
Qed.

(** [shr] by n divides the mantissa by 2^n, rounding down, and records
    whether the remainder was zero. *)
Lemma shr_sem (mrs : shr_record) (e n : Z) :
  0 <= shr_m mrs ->
  snd (shr mrs e n) = e + Z.max 0 n /\
  exists rem,
    0 <= rem < 2 ^ Z.max 0 n /\
    shr_m mrs = shr_m (fst (shr mrs e n)) * 2 ^ Z.max 0 n + rem /\
    inexact (fst (shr mrs e n)) = negb (rem =? 0) || inexact mrs /\
    0 <= shr_m (fst (shr mrs e n)).
Proof.
  intros Hm. unfold shr. destruct n as [|p|p]; cbn [fst snd].
  - split; [lia|]. exists 0. simpl. repeat split; lia.
  - split; [lia|]. rewrite iter_pos_nat.
    destruct (shr_iter_sem (Pos.to_nat p) mrs Hm) as [rem Hrem].
    rewrite positive_nat_Z in Hrem. exists rem.
    replace (Z.max 0 (Zpos p)) with (Zpos p) by lia. exact Hrem.
  - split; [lia|]. exists 0.
    replace (Z.max 0 (Zneg p)) with 0 by lia. simpl. repeat split; lia.
Qed.

Lemma shr_fexp_sem (m e : Z) (l : location) :
  0 <= m ->
  let k := Z.max 0 (fexp prec emax (Zdigits2 m + e) - e) in
  snd (shr_fexp prec emax m e l) = e + k /\
  exists rem,
    0 <= rem < 2 ^ k /\
    m = shr_m (fst (shr_fexp prec emax m e l)) * 2 ^ k + rem /\
    inexact (fst (shr_fexp prec emax m e l)) = negb (rem =? 0) || loc_inexact l /\
    0 <= shr_m (fst (shr_fexp prec emax m e l)).
Proof.
  intros Hm k. unfold shr_fexp.
  pose proof (shr_sem (shr_record_of_loc m l) e
                (fexp prec emax (Zdigits2 m + e) - e)) as S.
  rewrite shr_record_of_loc_m, inexact_of_loc in S.
  exact (S Hm).
Qed.

Lemma round_nearest_even_le (mrs : shr_record) :
  shr_m mrs <= round_nearest_even (shr_m mrs) (loc_of_shr_record mrs)
            <= shr_m mrs + Z.b2z (inexact mrs).
Proof.
  destruct mrs as [m [] []]; unfold inexact; simpl; try lia;
    destruct (Z.even m); lia.
Qed.

(** [shl_align] lowers the exponent to the target, when that is lower, and
    keeps the value. *)
Lemma shl_align_sem (mx : positive) (ex ex' : Z) :
  snd (shl_align mx ex ex') = Z.min ex ex' /\
  Zpos (fst (shl_align mx ex ex')) = Zpos mx * 2 ^ (ex - Z.min ex ex').
Proof.
  unfold shl_align. destruct (ex' - ex) as [|d|d] eqn:Ed; cbn [fst snd].
  - replace (Z.min ex ex') with ex by lia.
    rewrite Z.sub_diag, Z.pow_0_r. lia.
  - replace (Z.min ex ex') with ex by lia.
    rewrite Z.sub_diag, Z.pow_0_r. lia.
  - replace (Z.min ex ex') with ex' by lia. split; [reflexivity|].
    change (Pos.iter xO mx d) with (shift_pos d mx).
    rewrite shift_pos_correct, Z.pow_pos_fold.
    replace (ex - ex') with (Zpos d) by lia. lia.
Qed.

(** *** Upper bounds *)

Lemma below_shift (m e : Z) (inex : bool) (Bm Be k m' rem : Z) :
  below m e inex Bm Be -> 0 <= k -> e + k <= Be ->
  0 <= rem < 2 ^ k -> m = m' * 2 ^ k + rem ->
  below m' (e + k) (negb (rem =? 0) || inex) Bm Be.
Proof.
  intros [He Hb] Hk Hek Hrem Em. split; [exact Hek|].
  assert (EG : Bm * 2 ^ (Be - e) = Bm * 2 ^ (Be - (e + k)) * 2 ^ k).
  { rewrite <- Z.mul_assoc, <- Z.pow_add_r by lia. do 2 f_equal. lia. }
  rewrite EG in Hb.
  set (G := Bm * 2 ^ (Be - (e + k))) in *. set (P := 2 ^ k) in *.
  assert (HP : 0 < P) by (apply Z.pow_pos_nonneg; lia).
  destruct (Z.eqb_spec rem 0) as [-> | Hne]; cbn [negb orb].
  - destruct inex; nia.
  - assert (m' * P < G * P) by (destruct inex; lia). nia.
Qed.

Lemma shr_fexp_below (m e : Z) (l : location) (Bm Be : Z) :
  0 <= m -> below m e (loc_inexact l) Bm Be ->
  0 < Bm < 2 ^ 53 -> -1074 <= Be ->
  below (shr_m (fst (shr_fexp prec emax m e l)))
        (snd (shr_fexp prec emax m e l))
        (inexact (fst (shr_fexp prec emax m e l))) Bm Be /\
  0 <= shr_m (fst (shr_fexp prec emax m e l)).
Proof.
  intros Hm Hb HB HBe.
  destruct (shr_fexp_sem m e l Hm) as [Ee [rem [Hrem [Em [Ei Hpos]]]]].
  rewrite Ee, Ei. split; [|exact Hpos].
  apply below_shift with (m := m) (rem := rem); auto; try lia.
  assert (Hd : Zdigits2 m <= 53 + (Be - e)).
  { destruct Hb as [He Hb]. apply Zdigits2_le; [|lia]. split; [lia|].
    rewrite Z.pow_add_r by lia.
    assert (0 < 2 ^ (Be - e)) by (apply Z.pow_pos_nonneg; lia).
    destruct (loc_inexact l); nia. }
  destruct Hb as [He _]. rewrite fexp_eq. lia.
Qed.

(** Rounding to nearest does not cross a representable bound from below:
    what is at most [Bm * 2^Be] rounds to a zero or to a finite number that
    is at most [Bm * 2^Be]. *)
Lemma round_below (sx : bool) (mx ex : Z) (lx : location) (Bm Be : Z) :
  0 <= mx -> below mx ex (loc_inexact lx) Bm Be ->
  0 < Bm < 2 ^ 53 -> -1074 <= Be <= 971 ->
  binary_round_aux prec emax sx mx ex lx = S754_zero sx \/
  exists m e,
    binary_round_aux prec emax sx mx ex lx = S754_finite sx m e /\
    e <= Be /\ Zpos m <= Bm * 2 ^ (Be - e).
Proof.
  intros Hmx Hb HB HBe. unfold binary_round_aux.
  destruct (shr_fexp_below mx ex lx Bm Be) as [[B1e B1] P1];
    try assumption; try lia.
  destruct (shr_fexp prec emax mx ex lx) as [mrs' e'] eqn:E1.
  cbn [fst snd] in B1e, B1, P1.
  pose proof (round_nearest_even_le mrs') as R.
  set (m1 := round_nearest_even (shr_m mrs') (loc_of_shr_record mrs')) in *.
  assert (Hb1 : below m1 e' (loc_inexact loc_Exact) Bm Be).
  { split; [exact B1e|]. cbn [loc_inexact].
    destruct (inexact mrs'); cbn [Z.b2z] in R; lia. }
  destruct (shr_fexp_below m1 e' loc_Exact Bm Be) as [[B2e B2] P2];
    try assumption; try lia.
  destruct (shr_fexp prec emax m1 e' loc_Exact) as [mrs'' e''] eqn:E2.
  cbn [fst snd] in B2e, B2, P2.
  destruct (shr_m mrs'') as [|m|m] eqn:Em; [left; reflexivity | | lia].
  right. exists m, e''.
  destruct (Z.leb_spec e'' (emax - prec)) as [_|Hover].
  - repeat split; try lia. destruct (inexact mrs''); lia.
  - change (emax - prec) with 971 in Hover. lia.
Qed.

(** *** Lower bounds *)

Lemma at_least_pos (m e B : Z) : 1 <= B -> at_least m e B -> 1 <= m.
Proof.
  unfold at_least. intros HB. destruct (Z.leb_spec e 0).
  - assert (0 < 2 ^ (- e)) by (apply Z.pow_pos_nonneg; lia). nia.
  - assert (0 < 2 ^ e) by (apply Z.pow_pos_nonneg; lia). nia.
Qed.

Lemma at_least_mono (m m' e B : Z) :
  at_least m e B -> m <= m' -> at_least m' e B.
Proof.
  unfold at_least. destruct (Z.leb_spec e 0); [lia|].
  assert (0 < 2 ^ e) by (apply Z.pow_pos_nonneg; lia). nia.
Qed.

Lemma shr_fexp_at_least (m e : Z) (l : location) (B : Z) :
  1 <= B < 2 ^ 53 -> at_least m e B ->
  at_least (shr_m (fst (shr_fexp prec emax m e l)))
           (snd (shr_fexp prec emax m e l)) B.
Proof.
  intros HB H1. pose proof (at_least_pos m e B ltac:(lia) H1) as Hm.
  destruct (shr_fexp_sem m e l) as [Ee [rem [Hrem [Em [_ Hpos]]]]]; [lia|].
  rewrite Ee.
  set (m' := shr_m (fst (shr_fexp prec emax m e l))) in *.
  set (k := Z.max 0 (fexp prec emax (Zdigits2 m + e) - e)) in *.
  assert (HP : 0 < 2 ^ k) by (apply Z.pow_pos_nonneg; lia).
  unfold at_least in *.
  destruct (Z.leb_spec (e + k) 0) as [Hle | Hgt].
  - destruct (Z.leb_spec e 0); [|lia].
    assert (EG : 2 ^ (- e) = 2 ^ (- (e + k)) * 2 ^ k).
    { rewrite <- Z.pow_add_r by lia. f_equal. lia. }
    rewrite EG in H1.
    assert (0 < 2 ^ (- (e + k))) by (apply Z.pow_pos_nonneg; lia).
    nia.
  - destruct (Z.eq_dec k 0) as [K0 | Kpos].
    + rewrite K0 in *. change (2 ^ 0) with 1 in *.
      replace (e + 0) with e by lia.
      destruct (Z.leb_spec e 0); [lia|].
      assert (m' = m) by lia. subst m'. congruence.
    + (* the shift leaves 53 digits, above every integer below 2^53 *)
      assert (Ek : k = Zdigits2 m - 53).
      { unfold k in *. rewrite fexp_eq in *. lia. }
      pose proof (Zdigits2_lower m ltac:(lia)) as Hlow.
      replace (Zdigits2 m - 1) with (52 + k) in Hlow by lia.
      rewrite Z.pow_add_r in Hlow by lia.
      assert (H52 : 2 ^ 52 <= m') by nia.
      assert (H2 : 2 <= 2 ^ (e + k)).
      { change 2 with (2 ^ 1) at 1. apply Z.pow_le_mono_r; lia. }
      change (2 ^ 53) with (2 ^ 52 * 2) in HB. nia.
Qed.

(** Rounding to nearest does not cross an integer below 2^53 from above. *)
Lemma round_at_least (sx : bool) (mx ex : Z) (lx : location) (B : Z) :
  1 <= B < 2 ^ 53 -> at_least mx ex B ->
  binary_round_aux prec emax sx mx ex lx = S754_infinity sx \/
  exists m e,
    binary_round_aux prec emax sx mx ex lx = S754_finite sx m e /\
    at_least (Zpos m) e B.
Proof.
  intros HB H1. unfold binary_round_aux.
  pose proof (shr_fexp_at_least mx ex lx B HB H1) as A1.
  destruct (shr_fexp prec emax mx ex lx) as [mrs' e'] eqn:E1.
  cbn [fst snd] in A1.
  pose proof (round_nearest_even_le mrs') as R.
  set (m1 := round_nearest_even (shr_m mrs') (loc_of_shr_record mrs')) in *.
  assert (A1' : at_least m1 e' B) by (apply at_least_mono with (1 := A1); lia).
  pose proof (shr_fexp_at_least m1 e' loc_Exact B HB A1') as A2.
  destruct (shr_fexp prec emax m1 e' loc_Exact) as [mrs'' e''] eqn:E2.
  cbn [fst snd] in A2.
  pose proof (at_least_pos _ _ B ltac:(lia) A2) as Hp.
  destruct (shr_m mrs'') as [|m|m] eqn:Em; [lia | | lia].
  destruct (Z.leb_spec e'' (emax - prec)).
  - right. exists m, e''. split; [reflexivity | exact A2].
  - left. reflexivity.
Qed.

(** *** Signs *)







(** *** float(n) *)

(** [float(n)] is exact below 2^53. *)
Lemma binary_normalize_exact (n : Z) :
  0 < n < 2 ^ 53 ->
  exists m e,
    binary_normalize prec emax n 0 false = S754_finite false m e /\
    e <= 0 /\ Zpos m = n * 2 ^ (- e).
Proof.
  intros Hn. destruct n as [|p|p]; try lia.
  unfold binary_normalize, binary_round.
  destruct (shl_align_sem p 0 (fexp prec emax (Zpos (digits2_pos p) + 0)))
    as [He Hm].
  destruct (shl_align p 0 (fexp prec emax (Zpos (digits2_pos p) + 0)))
    as [mz ez]. cbn [fst snd] in He, Hm.
  assert (Hez : ez <= 0) by lia.
  replace (0 - Z.min 0 (fexp prec emax (Zpos (digits2_pos p) + 0)))
    with (- ez) in Hm by lia.
  assert (Hlow : at_least (Zpos mz) ez (Zpos p)).
  { unfold at_least. destruct (Z.leb_spec ez 0); lia. }
  destruct (round_at_least false (Zpos mz) ez loc_Exact (Zpos p))
    as [Hinf | [m' [e' [Hf' Hlb]]]]; try lia; try exact Hlow.
  all: destruct (round_below false (Zpos mz) ez loc_Exact (Zpos p) 0)
    as [Z0 | [m [e [Hf [Hle Hub]]]]]; try lia; try congruence.
  all: try (split; [lia|]; cbn [loc_inexact];
            replace (0 - ez) with (- ez) by lia; lia).
  rewrite Hf in Hf'. injection Hf' as <- <-.
  exists m, e. split; [exact Hf|]. split; [exact Hle|].
  unfold at_least in Hlb. destruct (Z.leb_spec e 0); [|lia].
  replace (0 - e) with (- e) in Hub by lia. lia.
Qed.

(** [float(n)] for a machine integer is a zero or a positive finite number
    of at most 2^63. *)
Lemma binary_normalize_int (z : Z) :
  0 <= z < 2 ^ 63 ->
  binary_normalize prec emax z 0 false = S754_zero false \/
  exists m e,
    binary_normalize prec emax z 0 false = S754_finite false m e /\
    e <= 63 /\ Zpos m <= 2 ^ (63 - e).
Proof.
  intros Hz. destruct z as [|p|p]; [left; reflexivity | | lia].
  unfold binary_normalize, binary_round.
  destruct (shl_align_sem p 0 (fexp prec emax (Zpos (digits2_pos p) + 0)))
    as [He Hm].
  destruct (shl_align p 0 (fexp prec emax (Zpos (digits2_pos p) + 0)))
    as [mz ez]. cbn [fst snd] in He, Hm.
  assert (Hez : ez <= 0) by lia.
  replace (0 - Z.min 0 (fexp prec emax (Zpos (digits2_pos p) + 0)))
    with (- ez) in Hm by lia.
  destruct (round_below false (Zpos mz) ez loc_Exact 1 63)
    as [Z0 | [m [e [Hf [Hle Hub]]]]]; try lia.
  - split; [lia|]. cbn [loc_inexact].
    replace (63 - ez) with (63 + - ez) by lia.
    rewrite Z.pow_add_r, Hm by lia.
    assert (0 < 2 ^ (- ez)) by (apply Z.pow_pos_nonneg; lia). nia.
  - left. exact Z0.
  - right. exists m, e. repeat split; [exact Hf | exact Hle | lia].
Qed.

End Rounding.

(** ** The forward pass *)

Section Forward.
Context {T : Type} `{Scalar T}.

Lemma predict_entries (W X : ndarray T) (b0 : T) (n m : nat) :
  has_shape W n 1 -> has_shape X n m ->
  predict W X (scalar b0) =
  Ok (tabulate 1 m (fun _ j => sigmoid1 (score W X b0 n j))).
Proof.
  intros [HWr [HWc _]] [HXr [HXc _]].
  unfold predict, dot, transpose. cbn [nrows ncols tabulate].
  rewrite HWr, HWc, HXr, HXc, Nat.eqb_refl. cbn [bind].
  rewrite broadcast2_scalar. cbn [bind nrows ncols tabulate].
  unfold sigmoid, map_nd. cbn [nrows ncols tabulate].
  f_equal. apply tabulate_ext. intros i j Hi Hj.
  rewrite !get_tabulate by assumption.
  unfold score. do 2 f_equal.
  apply sum_n_ext. intros k Hk.
  rewrite get_tabulate by lia.
  replace i with 0 by lia. reflexivity.
Qed.

End Forward.

(** *** The sigmoid in binary64

    [1 + e] is at least one and [1 / y] for such a [y] is at most one, in
    floating point as over the reals, because rounding to nearest cannot
    cross the representable number 1. *)

Section SigmoidRange.
Local Open Scope Z_scope.
Local Unset Implicit Arguments.









End SigmoidRange.

Lemma sigmoid_open_interval (z : R) : (0 < sigmoid1 z < 1)%R.
Proof.
  unfold sigmoid1, div, add, one, exp, neg, of_int, exact. simpl INR.
  pose proof (exp_pos (- z)) as He.
  set (e := Rtrigo_def.exp (- z)) in *.
  split.
  - apply Rdiv_lt_0_compat; lra.
  - apply Rmult_lt_reg_r with (1 + e)%R; [lra|].
    unfold Rdiv. rewrite Rmult_assoc, Rinv_l by lra. lra.
Qed.


(** Finite inputs can give a NaN score, by overflow: 2^1023 * 2 is
    +infinity, 2^1023 * -2 is -infinity, and their sum is NaN.  The
    prediction is then NaN, which is why the bounds below are stated for
    scores that are not NaN. *)
Lemma predict_nan_score :
  has_shape overflowing_W 2 1 /\ has_shape overflowing_X 2 1 /\
  is_nan (score overflowing_W overflowing_X 0%float 2 0) = true /\
  predict overflowing_W overflowing_X (scalar 0%float) = Ok (mk_nd 1 1 [[nan]]).
Proof. repeat split; reflexivity. Qed.





(** ** The gradients *)

Section Gradients.
Context {T : Type} `{Scalar T}.

Lemma dw_entries (X A Y : ndarray T) (n m : nat) :
  has_shape X n m -> has_shape A 1 m -> has_shape Y 1 m -> m <> 0 ->
  dw X A Y = Ok (tabulate n 1 (fun i _ => dw_formula m X A Y i)).
Proof.
  intros [HXr [HXc _]] [HAr [HAc _]] [HYr [HYc _]] Hm.
  unfold dw. rewrite HYc, (py_inv_pos Hm). cbn [bind].
  rewrite broadcast2_same by congruence. cbn [bind].
  unfold dot, transpose. cbn [nrows ncols tabulate].
  rewrite HXc, HAc, HAr, HXr, Nat.eqb_refl. cbn [bind].
  unfold map_nd. cbn [nrows ncols tabulate].
  f_equal. apply tabulate_ext. intros i j Hi Hj.
  rewrite get_tabulate by assumption.
  unfold dw_formula. f_equal.
  apply sum_n_ext. intros k Hk.
  rewrite !get_tabulate by lia.
  replace j with 0 by lia. reflexivity.
Qed.

Lemma db_entries (A Y : ndarray T) (m : nat) :
  has_shape A 1 m -> has_shape Y 1 m -> m <> 0 ->
  db A Y = Ok (scalar (db_formula m A Y)).
Proof.
  intros [HAr [HAc _]] [HYr [HYc _]] Hm.
  unfold db. rewrite HYc, (py_inv_pos Hm). cbn [bind].
  rewrite broadcast2_same by congruence. cbn [bind].
  unfold map_nd, sum_axis1, scalar. cbn [nrows ncols tabulate].
  rewrite HAr, HAc.
  f_equal. apply tabulate_ext. intros i j Hi Hj.
  rewrite get_tabulate by lia.
  unfold db_formula. f_equal.
  apply sum_n_ext. intros k Hk.
  rewrite get_tabulate by lia.
  replace j with 0 by lia. reflexivity.
Qed.

End Gradients.




(** ** The cost *)

Section CostEntries.
Context {T : Type} `{Scalar T}.

Lemma cost_entries (Y A : ndarray T) (m : nat) :
  has_shape Y 1 m -> has_shape A 1 m -> m <> 0 ->
  cost Y A =
  Ok (scalar (mul (div one (of_int m))
                  (sum_n (fun j => loss1 (get Y 0 j) (get A 0 j)) m))).
Proof.
  intros [HYr [HYc _]] [HAr [HAc _]] Hm. unfold cost.
  rewrite broadcast2_same by (cbn [map_nd nrows ncols tabulate]; congruence).
  cbn [bind].
  rewrite broadcast2_same by (cbn [map_nd nrows ncols tabulate]; congruence).
  cbn [bind].
  rewrite broadcast2_same by reflexivity.
  cbn [bind map_nd nrows ncols tabulate].
  rewrite HYr, HYc, (py_inv_pos Hm). cbn [bind].
  unfold sum_axis1, scalar. cbn [nrows ncols tabulate].
  f_equal. apply tabulate_ext. intros i j Hi Hj.
  rewrite get_tabulate by lia. f_equal.
  apply sum_n_ext. intros k Hk.
  rewrite !get_tabulate by lia.
  rewrite !get_map_nd by (cbn [map_nd nrows ncols tabulate]; lia).
  replace j with 0 by lia. reflexivity.
Qed.

End CostEntries.

Lemma sum_n_S {T : Type} `{Scalar T} (f : nat -> T) (n : nat) :
  sum_n f (S n) = add (sum_n f n) (f n).
Proof.
  unfold sum_n. rewrite seq_S, fold_left_app. reflexivity.
Qed.

Section InitialPredictions.
Context {T : Type} `{ScalarLaws T}.



End InitialPredictions.

Lemma sum_n_const_R (c : R) (n : nat) :
  sum_n (fun _ => c) n = (INR n * c)%R.
Proof.
  induction n as [|n IH].
  - unfold sum_n, zero. simpl. ring.
  - rewrite sum_n_S, IH, S_INR. simpl. ring.
Qed.







(** The scenario of the specification: the cost recorded at iteration 0 is
    the double nearest to ln 2, and the iteration completes. *)
Example scenario_initial_cost :
  g_costs (fst (train 1 0x1.999999999999ap-4%float scenario_X scenario_y)) =
  [scalar ln2_binary64] /\
  snd (train 1 0x1.999999999999ap-4%float scenario_X scenario_y) = Ok tt.
Proof. split; vm_compute; reflexivity. Qed.

(** ** The training cell runs to completion on well-shaped data *)

Section Completion.
Context {T : Type} `{Scalar T}.

Lemma scalar_of_shape (b : ndarray T) :
  has_shape b 1 1 -> b = scalar (get b 0 0).
Proof.
  intros Hb. rewrite (tabulate_get Hb) at 1. unfold scalar.
  apply tabulate_ext. intros i j Hi Hj.
  replace i with 0 by lia. replace j with 0 by lia. reflexivity.
Qed.

Lemma has_shape_transpose (A : ndarray T) (r c : nat) :
  has_shape A r c -> has_shape (transpose A) c r.
Proof.
  intros [Hr [Hc _]]. unfold transpose. rewrite Hr, Hc.
  apply has_shape_tabulate.
Qed.

Lemma cost_runs (Y A : ndarray T) (m : nat) :
  has_shape Y 1 m -> has_shape A 1 m -> m <> 0 ->
  exists J, cost Y A = Ok J.
Proof.
  intros [HYr [HYc _]] [HAr [HAc _]] Hm. unfold cost.
  rewrite broadcast2_same by (cbn [map_nd nrows ncols tabulate]; congruence).
  cbn [bind].
  rewrite broadcast2_same by (cbn [map_nd nrows ncols tabulate]; congruence).
  cbn [bind].
  rewrite broadcast2_same by reflexivity. cbn [bind].
  rewrite HYc, (py_inv_pos Hm). cbn [bind].
  eexists. reflexivity.
Qed.

Lemma update_runs (lr : T) (P G : ndarray T) (r c : nat) :
  has_shape P r c -> has_shape G r c ->
  exists P', broadcast2 sub P (scale lr G) = Ok P' /\ has_shape P' r c.
Proof.
  intros [HPr [HPc _]] [HGr [HGc _]].
  rewrite broadcast2_same
    by (unfold scale; cbn [map_nd nrows ncols tabulate]; congruence).
  eexists. split; [reflexivity|].
  rewrite HPr, HPc. apply has_shape_tabulate.
Qed.

Lemma gd_body_runs (lr : T) (X_train y_train : ndarray T)
    (n m i : nat) (g : globals T) :
  has_shape X_train n m -> has_shape y_train m 1 -> m <> 0 ->
  well_shaped n g ->
  exists g',
    gd_body lr X_train y_train i g = (g', Ok tt) /\ well_shaped n g' /\
    length (g_costs g') =
    length (g_costs g) + (if i mod 100 =? 0 then 1 else 0).
Proof.
  intros HX Hy Hm [HW Hb].
  pose proof (has_shape_transpose Hy) as HYt.
  unfold gd_body, cbind, read, lift.
  pose proof (scalar_of_shape Hb) as Eb.
  set (b0 := get (g_b g) 0 0) in Eb. rewrite Eb.
  rewrite (predict_entries b0 HW HX).
  set (A := tabulate 1 m _).
  assert (HA : has_shape A 1 m) by apply has_shape_tabulate.
  destruct (cost_runs HYt HA Hm) as [J ->].
  assert (Htail : forall g1, well_shaped n g1 ->
    exists g',
      match dw X_train A (transpose y_train) with
      | Ok _dw =>
          match db A (transpose y_train) with
          | Ok _db =>
              match broadcast2 sub (g_W g1) (scale lr _dw) with
              | Ok W' =>
                  match broadcast2 sub (g_b (set_W W' g1)) (scale lr _db) with
                  | Ok b' => (set_b b' (set_W W' g1), Ok tt)
                  | Raise e => (set_W W' g1, Raise e)
                  end
              | Raise e => (g1, Raise e)
              end
          | Raise e => (g1, Raise e)
          end
      | Raise e => (g1, Raise e)
      end = (g', Ok tt) /\ well_shaped n g' /\ g_costs g' = g_costs g1).
  { intros g1 [HW1 Hb1].
    rewrite (dw_entries HX HA HYt Hm), (db_entries HA HYt Hm).
    match goal with
    | |- context [broadcast2 sub (g_W g1) (scale lr ?G)] =>
        destruct (update_runs lr (G := G) HW1 (has_shape_tabulate n 1 _))
          as [W' [-> HW']]
    end.
    cbn [set_W g_b].
    match goal with
    | |- context [broadcast2 sub (g_b g1) (scale lr ?G)] =>
        destruct (update_runs lr (G := G) Hb1 (has_shape_scalar _))
          as [b' [-> Hb']]
    end.
    eexists. split; [reflexivity|]. split; [split; assumption | reflexivity]. }
  destruct (i mod 100 =? 0); unfold assign, ret.
  - destruct (Htail (append_cost J g) (conj HW Hb)) as [g' [E [Hg' Hc]]].
    exists g'. split; [exact E|]. split; [exact Hg'|].
    rewrite Hc. cbn [append_cost g_costs]. rewrite length_app. reflexivity.
  - destruct (Htail g (conj HW Hb)) as [g' [E [Hg' Hc]]].
    exists g'. split; [exact E|]. split; [exact Hg'|].
    rewrite Hc. lia.
Qed.

Lemma for_range_runs (lr : T) (X_train y_train : ndarray T) (n m : nat) :
  has_shape X_train n m -> has_shape y_train m 1 -> m <> 0 ->
  forall k start g,
    well_shaped n g ->
    exists g',
      for_range (gd_body lr X_train y_train) start k g = (g', Ok tt) /\
      well_shaped n g' /\
      length (g_costs g') = length (g_costs g) + recorded start k.
Proof.
  intros HX Hy Hm. induction k as [|k IH]; intros start g Hg.
  - exists g. split; [reflexivity|]. split; [exact Hg|].
    unfold recorded. simpl. lia.
  - destruct (gd_body_runs lr start HX Hy Hm Hg) as [g1 [E1 [Hg1 Hc1]]].
    destruct (IH (S start) g1 Hg1) as [g' [E' [Hg' Hc']]].
    exists g'. cbn [for_range]. unfold cbind. rewrite E1.
    split; [exact E'|]. split; [exact Hg'|].
    rewrite Hc', Hc1. unfold recorded. cbn [seq filter].
    destruct (start mod 100 =? 0); simpl; lia.
Qed.

Lemma train_runs (lr : T) (X_train y_train : ndarray T) (n m k : nat) :
  has_shape X_train n m -> has_shape y_train m 1 -> m <> 0 ->
  exists g,
    train k lr X_train y_train = (g, Ok tt) /\
    well_shaped n g /\ length (g_costs g) = recorded 0 k.
Proof.
  intros HX Hy Hm. unfold train.
  destruct (for_range_runs lr HX Hy Hm k 0 (g := init_globals X_train))
    as [g [E [Hg Hc]]].
  - destruct HX as [HXr _]. unfold init_globals. rewrite HXr.
    split; [apply has_shape_zeros | apply has_shape_scalar].
  - exists g. split; [exact E|]. split; [exact Hg | exact Hc].
Qed.

End Completion.

(** On a feature matrix of shape (n,m) and a label column of shape (m,1)
    with at least one example, the training cell runs its k iterations
    without an exception, for every learning rate and in every arithmetic:
    NaN and infinities are values, not exceptions.  It leaves W of shape
    (n,1), b a scalar, and one recorded cost for every hundredth iteration. *)
Theorem train_completes {T : Type} `{Scalar T}
    (lr : T) (X_train y_train : ndarray T) (n m k : nat) :
  has_shape X_train n m -> has_shape y_train m 1 -> 1 <= m ->
  exists g,
    train k lr X_train y_train = (g, Ok tt) /\
    well_shaped n g /\ length (g_costs g) = recorded 0 k.
Proof. intros HX Hy Hm. apply (train_runs lr k HX Hy). lia. Qed.

Lemma train_completes_witness :
  has_shape scenario_X 4 4 /\ has_shape scenario_y 4 1 /\
  exists g,
    train 1000 0x1.47ae147ae147bp-7%float scenario_X scenario_y = (g, Ok tt) /\
    well_shaped 4 g /\ length (g_costs g) = 10.
Proof.
  assert (HX : has_shape scenario_X 4 4) by (repeat split; reflexivity).
  assert (Hy : has_shape scenario_y 4 1) by (repeat split; reflexivity).
  split; [exact HX|]. split; [exact Hy|].
  exact (train_completes 0x1.47ae147ae147bp-7%float 1000 HX Hy
           (le_S _ _ (le_S _ _ (le_S _ _ (le_n 1))))).
Defined.

(** ** Gradient descent with a zero learning rate *)

Section ZeroRate.
Context {T : Type} `{ScalarLaws T}.

Lemma broadcast2_shape (f : T -> T -> T) (A B C : ndarray T) :
  broadcast2 f A B = Ok C ->
  bdim (nrows A) (nrows B) = Ok (nrows C) /\
  bdim (ncols A) (ncols B) = Ok (ncols C).
Proof.
  unfold broadcast2. intros E. bind_inv E.
  injection E as <-. split; assumption.
Qed.

Lemma predict_shape (W X b0 A : ndarray T) :
  predict W X b0 = Ok A -> ncols W = 1 -> nrows b0 = 1 -> nrows A = 1.
Proof.
  unfold predict. intros E HW Hb. bind_inv E. injection E as <-.
  apply broadcast2_shape in Ea0. destruct Ea0 as [Er _].
  unfold dot in Ea. destruct (ncols (transpose W) =? nrows X); [|discriminate].
  injection Ea as <-. cbn [nrows ncols tabulate transpose sigmoid map_nd] in *.
  rewrite HW, Hb, bdim_same in Er. injection Er as <-. reflexivity.
Qed.

Lemma dw_shape (X A Y G : ndarray T) :
  dw X A Y = Ok G -> nrows A = 1 -> nrows Y = 1 ->
  nrows G = nrows X /\ ncols G = 1.
Proof.
  unfold dw. intros E HA HY. bind_inv E. injection E as <-.
  apply broadcast2_shape in Ea0. destruct Ea0 as [Er _].
  rewrite HA, HY, bdim_same in Er. injection Er as Er.
  unfold dot in Ea1. destruct (ncols X =? nrows (transpose a0)); [|discriminate].
  injection Ea1 as <-. cbn [nrows ncols tabulate transpose map_nd].
  split; [reflexivity | congruence].
Qed.

Lemma db_shape (A Y gb : ndarray T) :
  db A Y = Ok gb -> nrows A = 1 -> nrows Y = 1 ->
  nrows gb = 1 /\ ncols gb = 1.
Proof.
  unfold db. intros E HA HY. bind_inv E. injection E as <-.
  apply broadcast2_shape in Ea0. destruct Ea0 as [Er _].
  rewrite HA, HY, bdim_same in Er. injection Er as Er.
  cbn [nrows ncols tabulate sum_axis1 map_nd].
  split; [reflexivity | congruence].
Qed.

(** Subtracting zero times a finite gradient from zeros leaves zeros. *)
Lemma zero_rate_update (r c : nat) (G : ndarray T) :
  nrows G = r -> ncols G = c ->
  (forall i j, i < r -> j < c -> finite (get G i j)) ->
  broadcast2 sub (zeros r c) (scale zero G) = Ok (zeros r c).
Proof.
  intros Hr Hc Hfin.
  rewrite broadcast2_same
    by (unfold zeros, scale; cbn [nrows ncols tabulate map_nd]; congruence).
  unfold zeros at 1 2. cbn [nrows ncols tabulate].
  f_equal. apply tabulate_ext. intros i j Hi Hj.
  unfold zeros, scale. rewrite get_tabulate by assumption.
  rewrite get_map_nd by lia.
  apply sub_zero_times, Hfin; assumption.
Qed.

Lemma gd_body_zero_rate (X_train y_train : ndarray T) (i : nat) (g : globals T) :
  ncols y_train = 1 -> gradients_finite X_train y_train ->
  at_initial_parameters X_train g ->
  at_initial_parameters X_train (fst (gd_body zero X_train y_train i g)).
Proof.
  intros Hy Hfin Hg. unfold gd_body, cbind, read, lift.
  destruct Hg as [HW Hb]. rewrite HW, Hb.
  destruct (predict (zeros (nrows X_train) 1) X_train (scalar zero))
    as [A | e] eqn:EA; [|exact (conj HW Hb)].
  destruct (cost (transpose y_train) A) as [J | e]; [|exact (conj HW Hb)].
  assert (HAr : nrows A = 1)
    by (apply (predict_shape _ _ _ EA); reflexivity).
  assert (HYr : nrows (transpose y_train) = 1) by exact Hy.
  assert (Hstep : forall g1, at_initial_parameters X_train g1 ->
    at_initial_parameters X_train
      (fst (match dw X_train A (transpose y_train) with
            | Ok _dw =>
                match db A (transpose y_train) with
                | Ok _db =>
                    match broadcast2 sub (g_W g1) (scale zero _dw) with
                    | Ok W' =>
                        match broadcast2 sub (g_b (set_W W' g1)) (scale zero _db) with
                        | Ok b' => (set_b b' (set_W W' g1), Ok tt)
                        | Raise e => (set_W W' g1, Raise e)
                        end
                    | Raise e => (g1, Raise e)
                    end
                | Raise e => (g1, Raise e)
                end
            | Raise e => (g1, Raise e)
            end))).
  { intros g1 [HW1 Hb1].
    destruct (dw X_train A (transpose y_train)) as [G | e] eqn:EG;
      [|exact (conj HW1 Hb1)].
    destruct (db A (transpose y_train)) as [gb | e] eqn:Egb;
      [|exact (conj HW1 Hb1)].
    destruct (dw_shape _ _ _ EG HAr HYr) as [HGr HGc].
    destruct (db_shape _ _ Egb HAr HYr) as [Hgr Hgc].
    destruct (Hfin A G gb EA EG Egb) as [FG Fgb].
    rewrite HW1, (zero_rate_update G HGr HGc)
      by (intros; apply FG; lia).
    cbn [set_W g_b g_W].
    rewrite Hb1.
    change (scalar zero) with (zeros 1 1) at 1.
    rewrite (zero_rate_update gb Hgr Hgc)
      by (intros; apply Fgb; lia).
    split; reflexivity. }
  destruct (i mod 100 =? 0); unfold assign, ret.
  - apply (Hstep (append_cost J g)). exact (conj HW Hb).
  - apply (Hstep g). exact (conj HW Hb).
Qed.

Lemma for_range_invariant (P : globals T -> Prop) (body : nat -> cell T unit) :
  (forall i g, P g -> P (fst (body i g))) ->
  forall n start g, P g -> P (fst (for_range body start n g)).
Proof.
  intros Hbody. induction n as [|n IH]; intros start g Hg; simpl.
  - exact Hg.
  - unfold cbind. specialize (Hbody start g Hg).
    destruct (body start g) as [g' [[] | e]]; simpl in *.
    + apply IH. exact Hbody.
    + exact Hbody.
Qed.

End ZeroRate.

(** C5, as stated, fails in binary64: on the finite input [big_X] the sum
    inside [dw] overflows to infinity, the learning rate 0 times infinity is
    NaN, and after one iteration W is NaN. *)
Lemma zero_rate_overflow :
  has_shape big_X 1 4 /\ has_shape zero_labels 4 1 /\
  is_finite64 (get big_X 0 0) = true /\
  snd (train 1 zero big_X zero_labels) = Ok tt /\
  g_W (fst (train 1 zero big_X zero_labels)) = mk_nd 1 1 [[nan]].
Proof. repeat split; vm_compute; reflexivity. Qed.

(** C5 (amended): for every X_train, every label column y_train and every
    iteration count k, if the gradients computed at the initial parameters
    are finite (no NaN, no infinity; always the case in exact arithmetic),
    then the training loop run with learning rate 0 leaves W the zero
    vector of shape (n,1) and b equal to 0, whether the k iterations
    complete or an exception stops them; and on well-shaped data with at
    least one example they do complete. *)
Theorem gd_zero_rate {T : Type} `{ScalarLaws T}
    (X_train y_train : ndarray T) (k : nat) :
  ncols y_train = 1 -> gradients_finite X_train y_train ->
  g_W (fst (train k zero X_train y_train)) = zeros (nrows X_train) 1 /\
  g_b (fst (train k zero X_train y_train)) = scalar zero /\
  (forall n m,
     has_shape X_train n m -> has_shape y_train m 1 -> 1 <= m ->
     snd (train k zero X_train y_train) = Ok tt).
Proof.
  intros Hy Hfin.
  assert (Hinit : at_initial_parameters X_train
                    (fst (train k zero X_train y_train))).
  { unfold train.
    apply (for_range_invariant (at_initial_parameters X_train)).
    - intros i g Hg. apply gd_body_zero_rate; assumption.
    - split; reflexivity. }
  destruct Hinit as [HW Hb].
  split; [exact HW|]. split; [exact Hb|].
  intros n m HX Hym Hm.
  destruct (train_runs zero k HX Hym) as [g [E _]]; [lia|].
  rewrite E. reflexivity.
Qed.

Lemma gd_zero_rate_witness :
  ncols scenario_y = 1 /\ gradients_finite scenario_X scenario_y /\
  g_W (fst (train 1000 zero scenario_X scenario_y)) = zeros 4 1 /\
  g_b (fst (train 1000 zero scenario_X scenario_y)) = scalar zero /\
  snd (train 1000 zero scenario_X scenario_y) = Ok tt.
Proof.
  assert (Hfin : gradients_finite scenario_X scenario_y).
  { intros A G gb EA EG Egb.
    vm_compute in EA. injection EA as <-.
    vm_compute in EG. injection EG as <-.
    vm_compute in Egb. injection Egb as <-.
    split; intros i j Hi Hj; cbn [nrows ncols] in Hi, Hj.
    - assert (Ej : j = 0) by lia. subst j.
      do 4 (destruct i as [|i]; [reflexivity|]). lia.
    - assert (Ei : i = 0) by lia. assert (Ej : j = 0) by lia. subst i j.
      reflexivity. }
  destruct (gd_zero_rate 1000 (eq_refl : ncols scenario_y = 1) Hfin)
    as [HW [Hb Hruns]].
  split; [reflexivity|]. split; [exact Hfin|].
  split; [exact HW|]. split; [exact Hb|].
  apply (Hruns 4 4); [repeat split; reflexivity .. | lia].
Defined.

(** ** binarize *)

Section Binarize.
Context {T : Type} `{ScalarLaws T}.

Lemma set_item_tabulate (r c : nat) (f : nat -> nat -> T) (i j : nat) (v : T) :
  i < r -> j < c ->
  set_item (tabulate r c f) i j v =
  Ok (tabulate r c (fun i' j' => if (i' =? i) && (j' =? j) then v else f i' j')).
Proof.
  intros Hi Hj. unfold set_item, tabulate; simpl.
  apply Nat.ltb_lt in Hi as Hi'. apply Nat.ltb_lt in Hj as Hj'.
  rewrite Hi', Hj'; simpl. do 2 f_equal.
  rewrite (nth_map_seq (fun i => map (fun j => f i j) (seq 0 c))) by exact Hi.
  rewrite !list_set_map_seq.
  apply map_ext. intros i'.
  destruct (i' =? i) eqn:E; simpl; [|reflexivity].
  apply Nat.eqb_eq in E. subst i'. reflexivity.
Qed.

(** The loop invariant of [binarize]: after the indices [s .. s+n-1] the
    entries of row 0 in that range are thresholded, everything else is as
    before. *)
Lemma binarize_loop_tabulate (n s r c : nat) (f : nat -> nat -> T) :
  0 < r -> s + n <= c ->
  binarize_loop (tabulate r c f) (seq s n) =
  Ok (tabulate r c (fun i j =>
        if (i =? 0) && (s <=? j) && (j <? s + n)
        then threshold (f 0 j) else f i j)).
Proof.
  revert s f. induction n as [|n IH]; intros s f Hr Hs;
    cbn [seq binarize_loop].
  - f_equal. apply tabulate_ext. intros i j _ _. nat_cases.
  - rewrite get_tabulate by lia.
    rewrite set_item_tabulate by lia. cbn [bind].
    rewrite IH by lia. f_equal. apply tabulate_ext. intros i j _ _.
    nat_cases.
Qed.

(** What [binarize] returns on an array with at least one row. *)
Lemma binarize_rows (A : ndarray T) (r c : nat) :
  has_shape A r c -> 0 < r ->
  binarize A =
  Ok (tabulate r c (fun i j =>
        if i =? 0 then threshold (get A 0 j) else get A i j)).
Proof.
  intros HA Hr. unfold binarize.
  destruct HA as [Hr' [Hc' Hok]].
  rewrite (tabulate_get (A := A) (r := r) (c := c)) at 1
    by (repeat split; assumption).
  rewrite Hc'. rewrite binarize_loop_tabulate by lia.
  f_equal. apply tabulate_ext. intros i j Hi Hj. nat_cases.
Qed.

Lemma threshold_idem (x : T) : threshold (threshold x) = threshold x.
Proof.
  unfold threshold. destruct (gtb x half).
  - rewrite gt_one_half. reflexivity.
  - rewrite gt_zero_half. reflexivity.
Qed.

End Binarize.

(** C6: for every probability matrix A of shape (1,m), [binarize A] returns
    a matrix of the same shape whose entry j is 1 when A's entry j is
    strictly greater than 0.5 and 0 otherwise; an entry equal to 0.5 maps
    to 0. *)
Theorem binarize_spec {T : Type} `{ScalarLaws T} (A : ndarray T) (m : nat) :
  has_shape A 1 m ->
  exists B,
    binarize A = Ok B /\ has_shape B 1 m /\
    (forall j, j < m ->
       get B 0 j = if gtb (get A 0 j) half then one else zero) /\
    (forall j, j < m -> get A 0 j = half -> get B 0 j = zero).
Proof.
  intros HA.
  eexists. split; [apply (binarize_rows HA); lia|].
  split; [apply has_shape_tabulate|].
  split.
  - intros j Hj. rewrite get_tabulate by lia. reflexivity.
  - intros j Hj E. rewrite get_tabulate by lia. cbn [Nat.eqb].
    unfold threshold. rewrite E, gt_half_half. reflexivity.
Qed.

Lemma binarize_spec_witness :
  has_shape sample_probabilities 1 3 /\
  exists B,
    binarize sample_probabilities = Ok B /\ has_shape B 1 3 /\
    (forall j, j < 3 ->
       get B 0 j = if gtb (get sample_probabilities 0 j) half
                   then one else zero) /\
    (forall j, j < 3 -> get sample_probabilities 0 j = half -> get B 0 j = zero).
Proof.
  assert (Hs : has_shape sample_probabilities 1 3)
    by (repeat split; reflexivity).
  split; [exact Hs | exact (binarize_spec Hs)].
Defined.

Example binarize_sample :
  binarize sample_probabilities = Ok (mk_nd 1 3 [[0; 0; 1]%float]).
Proof. reflexivity. Qed.

(** C7: [binarize] is idempotent on matrices of shape (1,m). *)
Theorem binarize_idempotent {T : Type} `{ScalarLaws T}
    (A : ndarray T) (m : nat) :
  has_shape A 1 m ->
  (B <- binarize A ;; binarize B) = binarize A.
Proof.
  intros HA.
  rewrite (binarize_rows HA) by lia. cbn [bind].
  rewrite (binarize_rows (has_shape_tabulate 1 m _)) by lia.
  f_equal. apply tabulate_ext. intros i j Hi Hj.
  rewrite !get_tabulate by lia.
  destruct (i =? 0); [apply threshold_idem | reflexivity].
Qed.

Lemma binarize_idempotent_witness :
  has_shape sample_probabilities 1 3 /\
  (B <- binarize sample_probabilities ;; binarize B) =
  binarize sample_probabilities.
Proof.
  assert (Hs : has_shape sample_probabilities 1 3)
    by (repeat split; reflexivity).
  split; [exact Hs | exact (binarize_idempotent Hs)].
Defined.

(** ** The accuracy cell *)

Section Accuracy.
Context {T : Type} `{Scalar T}.

(** What the cell prints: the predictions form a row (1,m), the labels a
    column (m,1), so their difference broadcasts to all m x m pairs, and the
    mean runs over every pair (prediction j, label i). *)
Lemma accuracy_all_pairs (W X b y P : ndarray T) (m : nat) :
  (A <- predict W X b ;; binarize A) = Ok P ->
  has_shape P 1 m -> has_shape y m 1 ->
  accuracy W X b y =
  Ok (sub (of_int 100)
        (mul (div (sum_n (fun i =>
                     sum_n (fun j => absv (sub (get P 0 j) (get y i 0))) m) m)
                  (of_int (m * m)))
             (of_int 100))).
Proof.
  intros E [HPr [HPc _]] [Hyr [Hyc _]].
  unfold accuracy. bind_inv E. rewrite Ea. cbn [bind]. rewrite E. cbn [bind].
  rewrite broadcast2_row_col by assumption. cbn [bind].
  unfold mean, map_nd. cbn [nrows ncols tabulate].
  rewrite Hyr, HPc. do 4 f_equal.
  apply sum_n_ext. intros i Hi.
  apply sum_n_ext. intros j Hj.
  rewrite !get_tabulate by assumption. reflexivity.
Qed.

End Accuracy.

Lemma accuracy_all_pairs_witness :
  (A <- predict perfect_W perfect_X (scalar zero) ;; binarize A)
    = Ok (mk_nd 1 2 [[1; 0]%float]) /\
  has_shape (mk_nd 1 2 [[1; 0]%float]) 1 2 /\ has_shape perfect_y 2 1 /\
  accuracy perfect_W perfect_X (scalar zero) perfect_y =
  Ok (sub (of_int 100)
        (mul (div (sum_n (fun i =>
                     sum_n (fun j =>
                       absv (sub (get (mk_nd 1 2 [[1; 0]%float]) 0 j)
                                 (get perfect_y i 0))) 2) 2)
                  (of_int (2 * 2)))
             (of_int 100))).
Proof.
  assert (E : (A <- predict perfect_W perfect_X (scalar zero) ;; binarize A)
              = Ok (mk_nd 1 2 [[1; 0]%float])) by reflexivity.
  assert (HP : has_shape (mk_nd 1 2 [[1; 0]%float]) 1 2)
    by (repeat split; reflexivity).
  assert (Hy : has_shape perfect_y 2 1) by (repeat split; reflexivity).
  split; [exact E|]. split; [exact HP|]. split; [exact Hy|].
  exact (accuracy_all_pairs perfect_W perfect_X (scalar zero) E HP Hy).
Defined.

(** C8 (defect): on two examples that are both classified correctly the
    cell prints 50, while the accuracy of the specification, 100 x (1 - mean
    over the examples of |predicted i - actual i|), is 100. *)
Theorem accuracy_mixes_examples :
  (A <- predict perfect_W perfect_X (scalar zero) ;; binarize A)
    = Ok (mk_nd 1 2 [[1; 0]%float]) /\
  accuracy perfect_W perfect_X (scalar zero) perfect_y = Ok 50%float /\
  accuracy_spec 2 (get (mk_nd 1 2 [[1; 0]%float]) 0)
                  (fun i => get perfect_y i 0) = 100%float.
Proof. repeat split; vm_compute; reflexivity. Qed.

(** ** The preparation notebook: the label file *)

Lemma fold_df_append (names : list string) (df : list Prepare.row) :
  fold_left (fun df filename =>
               Prepare.df_append df (Prepare.mk_row filename 0)) names df =
  df ++ map (fun filename => Prepare.mk_row filename 0) names.
Proof.
  revert df. induction names as [|f names IH]; intros df; simpl.
  - rewrite app_nil_r. reflexivity.
  - rewrite IH. unfold Prepare.df_append. rewrite <- app_assoc. reflexivity.
Qed.

Lemma exists_after_write (fs : Prepare.filesystem) (p : string) (n : Prepare.node) :
  Prepare.os_path_exists (Prepare.write_file fs p n) p = true.
Proof.
  unfold Prepare.os_path_exists, Prepare.lookup, Prepare.write_file.
  rewrite String.eqb_refl. reflexivity.
Qed.

Lemma label_cell_present (fs : Prepare.filesystem) :
  Prepare.os_path_exists fs "labels.csv" = true ->
  Prepare.label_cell fs = (fs, Ok "labels.csv exists. Skipping"%string).
Proof. intros E. unfold Prepare.label_cell. rewrite E. reflexivity. Qed.

Lemma label_cell_absent (fs : Prepare.filesystem) (names : list string) :
  Prepare.os_path_exists fs "labels.csv" = false ->
  Prepare.os_listdir fs Prepare.images_dir = Ok names ->
  Prepare.label_cell fs =
  (Prepare.write_file fs "labels.csv"
     (Prepare.Csv (map (fun filename => Prepare.mk_row filename 0) names)),
   Ok "Labels saved"%string).
Proof.
  intros E L. unfold Prepare.label_cell. rewrite E, L. cbn [negb].
  rewrite fold_df_append. reflexivity.
Qed.

(** C9: if the label file is absent, the cell creates it with one row per
    entry of the images directory, each with label 0; if it exists, the run
    leaves the whole file system untouched; hence a second run changes
    nothing.  No other file is ever written. *)
Theorem label_cell_spec (fs : Prepare.filesystem) :
  (forall names,
     Prepare.os_path_exists fs "labels.csv" = false ->
     Prepare.os_listdir fs Prepare.images_dir = Ok names ->
     Prepare.read_csv (fst (Prepare.label_cell fs)) "labels.csv" =
       Ok (map (fun filename => Prepare.mk_row filename 0) names) /\
     snd (Prepare.label_cell fs) = Ok "Labels saved"%string) /\
  (Prepare.os_path_exists fs "labels.csv" = true ->
     fst (Prepare.label_cell fs) = fs) /\
  fst (Prepare.label_cell (fst (Prepare.label_cell fs))) =
  fst (Prepare.label_cell fs) /\
  (forall q, String.eqb q "labels.csv" = false ->
     fst (Prepare.label_cell fs) q = fs q).
Proof.
  split; [|split; [|split]]; cycle 3.
  { intros q Hq. unfold Prepare.label_cell.
    destruct (Prepare.os_path_exists fs "labels.csv"); cbn [negb];
      [reflexivity|].
    destruct (Prepare.os_listdir fs Prepare.images_dir); [|reflexivity].
    cbn [fst]. unfold Prepare.write_file.
    change (Prepare.normpath "labels.csv") with "labels.csv"%string.
    rewrite Hq. reflexivity. }
  - intros names E L. rewrite (label_cell_absent fs E L). cbn [fst snd].
    split; [|reflexivity].
    unfold Prepare.read_csv, Prepare.lookup, Prepare.write_file.
    rewrite String.eqb_refl. reflexivity.
  - intros E. rewrite (label_cell_present fs E). reflexivity.
  - destruct (Prepare.os_path_exists fs "labels.csv") eqn:E.
    + rewrite (label_cell_present fs E). cbn [fst].
      rewrite (label_cell_present fs E). reflexivity.
    + destruct (Prepare.os_listdir fs Prepare.images_dir) as [names | e] eqn:L.
      * rewrite (label_cell_absent fs E L). cbn [fst].
        rewrite label_cell_present by apply exists_after_write.
        reflexivity.
      * assert (R : Prepare.label_cell fs = (fs, Raise e))
          by (unfold Prepare.label_cell; rewrite E, L; reflexivity).
        rewrite R. cbn [fst]. rewrite R. reflexivity.
Qed.

Lemma label_cell_spec_witness :
  Prepare.os_path_exists fresh_directory "labels.csv" = false /\
  Prepare.os_listdir fresh_directory Prepare.images_dir
    = Ok ["a.jpg"; "b.jpg"]%string /\
  Prepare.read_csv (fst (Prepare.label_cell fresh_directory)) "labels.csv" =
    Ok [Prepare.mk_row "a.jpg" 0; Prepare.mk_row "b.jpg" 0] /\
  snd (Prepare.label_cell fresh_directory) = Ok "Labels saved"%string.
Proof.
  split; [reflexivity|]. split; [reflexivity|].
  exact (proj1 (label_cell_spec fresh_directory)
           ["a.jpg"; "b.jpg"]%string eq_refl eq_refl).
Defined.

(** ** The preparation notebook: ingestion *)

Section IngestionFacts.
Variable image : Type.
Variable imread_resize : string -> result image.

Lemma load_images_rev (data : list Prepare.row) (decoded acc : list image) :
  Prepare.decodes imread_resize data decoded ->
  Prepare.load_images imread_resize (map Prepare.file_name data) acc =
  Ok (rev decoded ++ acc).
Proof.
  intros D. revert acc. induction D as [|r img data decoded Hr D IH];
    intros acc; simpl.
  - reflexivity.
  - rewrite Hr. cbn [bind]. rewrite IH, <- app_assoc. reflexivity.
Qed.

Lemma load_labels_rev (column acc : list Z) :
  Prepare.load_labels column acc = rev column ++ acc.
Proof.
  revert acc. induction column as [|g column IH]; intros acc; simpl.
  - reflexivity.
  - rewrite IH, <- app_assoc. reflexivity.
Qed.

Lemma decodes_nth (data : list Prepare.row) (decoded : list image)
    (i : nat) (r : Prepare.row) :
  Prepare.decodes imread_resize data decoded -> nth_error data i = Some r ->
  exists img,
    nth_error decoded i = Some img /\
    imread_resize (Prepare.image_path (Prepare.file_name r)) = Ok img.
Proof.
  intros D. revert i. induction D as [|r0 img data decoded Hr D IH];
    intros i Hi.
  - destruct i; discriminate.
  - destruct i as [|i]; simpl in *.
    + injection Hi as <-. exists img. split; [reflexivity | exact Hr].
    + apply IH. exact Hi.
Qed.

Lemma decodes_rev (data : list Prepare.row) (decoded : list image) :
  Prepare.decodes imread_resize data decoded ->
  Prepare.decodes imread_resize (rev data) (rev decoded).
Proof.
  intros D. induction D as [|r img data decoded Hr D IH]; simpl.
  - constructor.
  - apply Forall2_app; [exact IH | constructor; [exact Hr | constructor]].
Qed.

End IngestionFacts.

(** C10: the ingestion loops prepend, so the image tensor and the label
    vector both hold the examples in the reverse of the label file's row
    order; the two reversals agree, so position i of both comes from the
    same row.  (Provided every picture decodes; otherwise the cell raises.) *)
Theorem ingest_reversed_aligned (image : Type)
    (imread_resize : string -> result image)
    (fs : Prepare.filesystem) (data : list Prepare.row) (decoded : list image) :
  Prepare.read_csv fs "./labels.csv" = Ok data ->
  Prepare.decodes imread_resize data decoded ->
  Prepare.ingest_cell imread_resize fs =
    Ok (rev decoded, rev (map Prepare.is_guitar data)) /\
  forall i r,
    nth_error (rev data) i = Some r ->
    nth_error (rev (map Prepare.is_guitar data)) i = Some (Prepare.is_guitar r) /\
    exists img,
      nth_error (rev decoded) i = Some img /\
      imread_resize (Prepare.image_path (Prepare.file_name r)) = Ok img.
Proof.
  intros R D. split.
  - unfold Prepare.ingest_cell. rewrite R. cbn [bind].
    rewrite (load_images_rev [] D). cbn [bind].
    rewrite load_labels_rev, !app_nil_r. reflexivity.
  - intros i r Hi. split.
    + rewrite <- map_rev. apply map_nth_error. exact Hi.
    + apply (decodes_nth i (decodes_rev D) Hi).
Qed.

Lemma ingest_reversed_aligned_witness :
  Prepare.ingest_cell (fun p => Ok p) two_rows =
    Ok (["./images/b.jpg"; "./images/a.jpg"]%string, [0; 1]%Z) /\
  forall i r,
    nth_error
      (rev [Prepare.mk_row "a.jpg" 1; Prepare.mk_row "b.jpg" 0]) i = Some r ->
    nth_error [0; 1]%Z i = Some (Prepare.is_guitar r) /\
    exists img,
      nth_error ["./images/b.jpg"; "./images/a.jpg"]%string i = Some img /\
      Ok (Prepare.image_path (Prepare.file_name r)) = Ok img.
Proof.
  apply (@ingest_reversed_aligned string (fun p => Ok p) two_rows
           [Prepare.mk_row "a.jpg" 1; Prepare.mk_row "b.jpg" 0]
           ["./images/a.jpg"; "./images/b.jpg"]%string).
  - reflexivity.
  - repeat constructor.
Defined.

(** ** The preparation notebook: the split *)

(** *** The product 0.7 * float(N) *)

Section SplitArithmetic.
Local Open Scope Z_scope.
Local Unset Implicit Arguments.

Lemma Prim2SF_seven_tenths :
  Prim2SF 0x1.6666666666666p-1 = S754_finite false 6305039478318694 (-53).
Proof. reflexivity. Qed.

(** [0.7 * float(n)] is a zero or a positive finite number, so that
    [int(...)] cannot raise. *)
Lemma seven_tenths_times_int (n : PrimInt63.int) :
  Prim2SF (0x1.6666666666666p-1 * of_uint63 n) = S754_zero false \/
  exists m e, Prim2SF (0x1.6666666666666p-1 * of_uint63 n) = S754_finite false m e.
Proof.
  rewrite FloatAxioms.mul_spec, FloatAxioms.of_uint63_spec, Prim2SF_seven_tenths.
  pose proof (Uint63.to_Z_bounded n) as Hn.
  change Uint63.wB with (2 ^ 63) in Hn.
  destruct (binary_normalize_int (Uint63.to_Z n) Hn) as [-> | [m [e [-> [He Hm]]]]].
  - left. reflexivity.
  - unfold SF64mul, SFmul. cbn [xorb].
    destruct (round_below false (Zpos (6305039478318694 * m)) (-53 + e)
                loc_Exact 1 64)
      as [Z0 | [m' [e' [Hf _]]]]; try lia.
    + split; [lia|]. cbn [loc_inexact].
      replace (64 - (-53 + e)) with (54 + (63 - e)) by lia.
      rewrite Z.pow_add_r, Pos2Z.inj_mul by lia.
      assert (0 < 2 ^ (63 - e)) by (apply Z.pow_pos_nonneg; lia).
      change (2 ^ 54) with 18014398509481984. nia.
    + left. exact Z0.
    + right. exists m', e'. exact Hf.
Qed.

(** Below 2^49 examples the training count is floor(7 N / 10) or one less:
    the product is at least floor(7 N / 10) - 1 and at most
    floor(7 N / 10) + 15/16, two numbers that rounding cannot cross. *)
Lemma training_count_bounds (n : nat) :
  Z.of_nat n < 2 ^ 49 ->
  exists k,
    Prepare.training_examples_count n = Ok k /\
    7 * Z.of_nat n / 10 - 1 <= k <= 7 * Z.of_nat n / 10.
Proof.
  intros Hn. unfold Prepare.training_examples_count, py_int, float_of_nat.
  rewrite FloatAxioms.mul_spec, FloatAxioms.of_uint63_spec, Prim2SF_seven_tenths.
  assert (H49 : 2 ^ 49 < 2 ^ 53) by reflexivity.
  assert (H63 : 2 ^ 53 < 2 ^ 63) by reflexivity.
  rewrite Uint63.of_Z_spec, Z.mod_small
    by (change Uint63.wB with (2 ^ 63); lia).
  set (N := Z.of_nat n) in *.
  pose proof (Z.div_mod (7 * N) 10 ltac:(lia)) as HF.
  pose proof (Z.mod_pos_bound (7 * N) 10 ltac:(lia)) as HFr.
  set (F := 7 * N / 10) in *.
  destruct (Z.eq_dec N 0) as [N0 | Npos].
  { rewrite N0. exists 0. split; [reflexivity|]. lia. }
  destruct (binary_normalize_exact N ltac:(lia)) as [mN [eN [-> [HeN HmN]]]].
  unfold SF64mul, SFmul. cbn [xorb].
  set (M := Zpos (6305039478318694 * mN)).
  assert (EM : M = 6305039478318694 * N * 2 ^ (- eN)).
  { unfold M. rewrite Pos2Z.inj_mul, HmN. ring. }
  assert (HP : 0 < 2 ^ (- eN)) by (apply Z.pow_pos_nonneg; lia).
  assert (Hlow : 2 <= F -> at_least M (-53 + eN) (F - 1)).
  { intros Hbig. unfold at_least. destruct (Z.leb_spec (-53 + eN) 0); [|lia].
    replace (- (-53 + eN)) with (53 + - eN) by lia.
    rewrite Z.pow_add_r by lia. rewrite EM.
    assert ((F - 1) * 2 ^ 53 <= 6305039478318694 * N); [|nia].
    change (2 ^ 53) with 9007199254740992. lia. }
  destruct (round_below false M (-53 + eN) loc_Exact (16 * F + 15) (-4))
    as [Z0 | [m [e [Hf [Hle Hub]]]]]; try lia.
  { split; [lia|]. cbn [loc_inexact].
    replace (-4 - (-53 + eN)) with (49 + - eN) by lia.
    rewrite Z.pow_add_r by lia. rewrite EM.
    assert (6305039478318694 * N <= (16 * F + 15) * 2 ^ 49); [|nia].
    change (2 ^ 49) with 562949953421312. lia. }
  - (* the product rounds to zero: only when floor(7 N / 10) is below two *)
    rewrite Z0. exists 0. split; [reflexivity|].
    destruct (Z_lt_le_dec F 2) as [Hsmall | Hbig]; [lia|].
    destruct (round_at_least false M (-53 + eN) loc_Exact (F - 1))
      as [Hinf | [m [e [Hf _]]]]; try lia; try congruence.
    exact (Hlow Hbig).
  - rewrite Hf. destruct (Z.leb_spec 0 e); [lia|].
    eexists. split; [reflexivity|].
    rewrite Z.shiftr_div_pow2 by lia.
    assert (HPe : 0 < 2 ^ (- e)) by (apply Z.pow_pos_nonneg; lia).
    split.
    + destruct (Z_lt_le_dec F 2) as [Hsmall | Hbig].
      { assert (0 <= Zpos m / 2 ^ (- e)) by (apply Z.div_pos; lia). lia. }
      destruct (round_at_least false M (-53 + eN) loc_Exact (F - 1))
        as [Hinf | [m' [e' [Hf' Hlb]]]]; try lia; try congruence.
      { exact (Hlow Hbig). }
      rewrite Hf in Hf'. injection Hf' as <- <-.
      unfold at_least in Hlb. destruct (Z.leb_spec e 0); [|lia].
      apply Z.div_le_lower_bound; lia.
    + replace (-4 - e) with (- e - 4) in Hub by lia.
      assert (E16 : 2 ^ (- e) = 2 ^ (- e - 4) * 16).
      { change 16 with (2 ^ 4). rewrite <- Z.pow_add_r by lia. f_equal. lia. }
      assert (HP4 : 0 < 2 ^ (- e - 4)) by (apply Z.pow_pos_nonneg; lia).
      apply Z.lt_succ_r. apply Z.div_lt_upper_bound; [lia|].
      rewrite E16. nia.
Qed.

End SplitArithmetic.

Lemma training_examples_count_total (n : nat) :
  exists k, Prepare.training_examples_count n = Ok k /\ (0 <= k)%Z.
Proof.
  unfold Prepare.training_examples_count, py_int, float_of_nat.
  destruct (seven_tenths_times_int (Uint63.of_Z (Z.of_nat n)))
    as [-> | [m [e ->]]].
  - exists 0%Z. split; [reflexivity | lia].
  - eexists. split; [reflexivity|].
    destruct (0 <=? e)%Z.
    + apply Z.shiftl_nonneg. lia.
    + apply Z.shiftr_nonneg. lia.
Qed.

Lemma np_split_nonneg {A : Type} (a : list A) (k : Z) :
  (0 <= k)%Z ->
  Prepare.np_split a k = (firstn (Z.to_nat k) a, skipn (Z.to_nat k) a).
Proof.
  intros Hk. unfold Prepare.np_split, Prepare.slice_bound.
  destruct (Z.ltb_spec k 0); [lia|].
  destruct (Nat.le_gt_cases (Z.to_nat k) (length a)) as [Hle | Hgt].
  - rewrite Nat.min_l by exact Hle. reflexivity.
  - rewrite Nat.min_r by lia.
    rewrite firstn_all, skipn_all.
    rewrite firstn_all2, skipn_all2 by lia. reflexivity.
Qed.

(** C2, as stated, fails: for 90 examples the binary64 product 0.7 * 90 is
    62.99999999999999, so the training partition gets 62 examples, while
    floor(0.7 * 90) = floor(63) = 63. *)
Lemma split_of_ninety :
  Prepare.training_examples_count 90 = Ok 62%Z /\
  (7 * 90 / 10 = 63)%Z /\
  (ds <- Prepare.split_cell (repeat tt 90) (repeat 0%Z 90) ;;
   Ok (Prepare.train_count ds, Prepare.test_count ds,
       length (Prepare.training_set_x ds), length (Prepare.test_set_x ds)))
  = Ok (62%Z, 28%Z, 62, 28).
Proof. repeat split; vm_compute; reflexivity. Qed.

(** C2 (amended): for every dataset of N examples the split assigns the first
    k examples, in the existing order, to the training partition and the
    rest to the test partition, where k = int(0.7 * N) with the product
    taken in binary64 and then truncated; train_count + test_count = N and
    training followed by test is the original dataset; 10 examples give 7
    and 3.  Below 2^49 examples, k is floor(7 N / 10) or, through the
    rounding of the product, one less ([split_of_ninety]), and the two
    partitions hold train_count and test_count examples. *)
Theorem split_cell_spec (image : Type) (images : list image) (labels : list Z) :
  exists k ds,
    Prepare.training_examples_count (length images) = Ok k /\
    Prepare.split_cell images labels = Ok ds /\
    Prepare.train_count ds = k /\
    Prepare.test_count ds = (Z.of_nat (length images) - k)%Z /\
    (Prepare.train_count ds + Prepare.test_count ds
       = Z.of_nat (length images))%Z /\
    Prepare.training_set_x ds = firstn (Z.to_nat k) images /\
    Prepare.test_set_x ds = skipn (Z.to_nat k) images /\
    Prepare.training_set_y ds = firstn (Z.to_nat k) labels /\
    Prepare.test_set_y ds = skipn (Z.to_nat k) labels /\
    Prepare.training_set_x ds ++ Prepare.test_set_x ds = images /\
    Prepare.training_set_y ds ++ Prepare.test_set_y ds = labels /\
    (length images = 10 ->
       Prepare.train_count ds = 7%Z /\ Prepare.test_count ds = 3%Z) /\
    ((Z.of_nat (length images) < 2 ^ 49)%Z ->
       (7 * Z.of_nat (length images) / 10 - 1 <= k
          <= 7 * Z.of_nat (length images) / 10)%Z /\
       Z.of_nat (length (Prepare.training_set_x ds)) = Prepare.train_count ds /\
       Z.of_nat (length (Prepare.test_set_x ds)) = Prepare.test_count ds).
Proof.
  destruct (training_examples_count_total (length images)) as [k [Ek Hk]].
  exists k. eexists. split; [exact Ek|].
  unfold Prepare.split_cell. rewrite Ek. cbn [bind].
  rewrite !np_split_nonneg by exact Hk.
  split; [reflexivity|]. cbn [Prepare.train_count Prepare.test_count
    Prepare.training_set_x Prepare.test_set_x
    Prepare.training_set_y Prepare.test_set_y].
  split; [reflexivity|]. split; [reflexivity|]. split; [lia|].
  do 4 (split; [reflexivity|]).
  do 2 (split; [apply firstn_skipn|]).
  split.
  - intros H10. rewrite H10 in Ek |- *.
    assert (E7 : Prepare.training_examples_count 10 = Ok 7%Z)
      by (vm_compute; reflexivity).
    rewrite E7 in Ek. injection Ek as <-. split; reflexivity.
  - intros Hsmall.
    destruct (training_count_bounds (length images) Hsmall) as [k' [Ek' Hb]].
    rewrite Ek in Ek'. injection Ek' as <-.
    split; [exact Hb|].
    pose proof (Z.div_mod (7 * Z.of_nat (length images)) 10 ltac:(lia)) as HF.
    pose proof (Z.mod_pos_bound (7 * Z.of_nat (length images)) 10 ltac:(lia))
      as HFr.
    rewrite length_firstn, length_skipn. lia.
Qed.

Lemma split_cell_spec_witness :
  exists ds,
    Prepare.split_cell (repeat tt 10) (repeat 0%Z 10) = Ok ds /\
    Prepare.train_count ds = 7%Z /\ Prepare.test_count ds = 3%Z /\
    Z.of_nat (length (Prepare.training_set_x ds)) = 7%Z /\
    Z.of_nat (length (Prepare.test_set_x ds)) = 3%Z /\
    Prepare.training_set_x ds ++ Prepare.test_set_x ds = repeat tt 10.
Proof.
  destruct (split_cell_spec (repeat tt 10) (repeat 0%Z 10))
    as [k [ds [_ [E [_ [_ [_ [_ [_ [_ [_ [Happ [_ [H10 Hsmall]]]]]]]]]]]]]].
  destruct (H10 eq_refl) as [Htrain Htest].
  destruct (Hsmall eq_refl) as [_ [Ltrain Ltest]].
  exists ds. rewrite Ltrain, Ltest.
  repeat split; assumption.
Defined.

(** * Further properties of the notebooks *)

(** ** The reshape cell *)

Section ReshapeFacts.
Context {T : Type} `{Scalar T}.

Lemma reshape_ok (buf : list T) (r c : nat) :
  length buf = r * c ->
  reshape buf r c = Ok (tabulate r c (fun i j => nth (i * c + j) buf zero)).
Proof. intros E. unfold reshape. rewrite E, Nat.eqb_refl. reflexivity. Qed.

Lemma reshape_bad (buf : list T) (r c : nat) :
  length buf <> r * c -> reshape buf r c = Raise ValueError.
Proof.
  intros E. unfold reshape.
  destruct (Nat.eqb_spec (length buf) (r * c)); [contradiction | reflexivity].
Qed.

Lemma get_transpose_tabulate (r c : nat) (f : nat -> nat -> T) (i j : nat) :
  i < c -> j < r -> get (transpose (tabulate r c f)) i j = f j i.
Proof.
  intros Hi Hj. unfold transpose. cbn [nrows ncols tabulate].
  rewrite get_tabulate by assumption.
  apply get_tabulate; assumption.
Qed.

Lemma has_shape_transpose_tabulate (r c : nat) (f : nat -> nat -> T) :
  has_shape (transpose (tabulate r c f)) c r.
Proof. unfold transpose. cbn [nrows ncols tabulate]. apply has_shape_tabulate. Qed.

(** The position of pixel (r, q, ch) in a flattened picture. *)
Lemma pixel_index_lt (h w c r q ch : nat) :
  r < h -> q < w -> ch < c -> (r * w + q) * c + ch < h * w * c.
Proof.
  intros Hr Hq Hc.
  assert (H1 : r * w + q + 1 <= h * w) by nia.
  assert (H2 : (r * w + q + 1) * c <= h * w * c)
    by (apply Nat.mul_le_mono_r; exact H1).
  nia.
Qed.

(** What the cell returns when the sizes agree. *)
Lemma reshape_cell_ok (trx : ndarray4 T) (try_ : list T)
    (tex : ndarray4 T) (tey : list T) (n : nat) :
  n = shape1 trx * shape2 trx * shape3 trx ->
  length (buffer trx) = shape0 trx * n ->
  length try_ = shape0 trx ->
  length (buffer tex) = shape0 tex * n ->
  length tey = shape0 tex ->
  reshape_cell trx try_ tex tey =
  Ok (transpose (tabulate (shape0 trx) n
                   (fun i j => nth (i * n + j) (buffer trx) zero)),
      tabulate (shape0 trx) 1 (fun i j => nth (i * 1 + j) try_ zero),
      transpose (tabulate (shape0 tex) n
                   (fun i j => nth (i * n + j) (buffer tex) zero)),
      tabulate (shape0 tex) 1 (fun i j => nth (i * 1 + j) tey zero)).
Proof.
  intros En E1 E2 E3 E4. unfold reshape_cell. cbv zeta. rewrite <- En.
  rewrite (reshape_ok _ _ _ E1). cbn [bind].
  rewrite reshape_ok by lia. cbn [bind].
  rewrite (reshape_ok _ _ _ E3). cbn [bind].
  rewrite reshape_ok by lia. reflexivity.
Qed.

End ReshapeFacts.

(** The reshape cell turns m pictures of h x w x c values into a feature
    matrix of shape (h w c, m) whose column j is picture j, flattened row
    after row, and the m labels into a column of shape (m, 1); likewise
    for the test set. *)
Theorem reshape_cell_spec {T : Type} `{Scalar T}
    (trx : ndarray4 T) (try_ : list T) (tex : ndarray4 T) (tey : list T) :
  nd4_ok trx -> nd4_ok tex ->
  length try_ = shape0 trx -> length tey = shape0 tex ->
  shape1 tex = shape1 trx -> shape2 tex = shape2 trx ->
  shape3 tex = shape3 trx ->
  exists X_train y_train X_test y_test,
    reshape_cell trx try_ tex tey = Ok (X_train, y_train, X_test, y_test) /\
    has_shape X_train (shape1 trx * shape2 trx * shape3 trx) (shape0 trx) /\
    has_shape y_train (shape0 trx) 1 /\
    has_shape X_test (shape1 trx * shape2 trx * shape3 trx) (shape0 tex) /\
    has_shape y_test (shape0 tex) 1 /\
    (forall j r q ch,
       j < shape0 trx -> r < shape1 trx -> q < shape2 trx -> ch < shape3 trx ->
       get X_train ((r * shape2 trx + q) * shape3 trx + ch) j
       = get4 trx j r q ch) /\
    (forall j, j < shape0 trx -> get y_train j 0 = nth j try_ zero) /\
    (forall j r q ch,
       j < shape0 tex -> r < shape1 trx -> q < shape2 trx -> ch < shape3 trx ->
       get X_test ((r * shape2 trx + q) * shape3 trx + ch) j
       = get4 tex j r q ch) /\
    (forall j, j < shape0 tex -> get y_test j 0 = nth j tey zero).
Proof.
  intros Hx Hx' Hy Hy' E1 E2 E3.
  unfold nd4_ok in Hx, Hx'. rewrite E1, E2, E3 in Hx'.
  do 4 eexists.
  split; [apply (reshape_cell_ok trx try_ tex tey eq_refl Hx Hy Hx' Hy')|].
  split; [apply has_shape_transpose_tabulate|].
  split; [apply has_shape_tabulate|].
  split; [apply has_shape_transpose_tabulate|].
  split; [apply has_shape_tabulate|].
  repeat split.
  - intros j r q ch Hj Hr Hq Hc.
    rewrite get_transpose_tabulate
      by (try apply pixel_index_lt; assumption).
    unfold get4. f_equal. ring.
  - intros j Hj. rewrite get_tabulate by lia. f_equal. lia.
  - intros j r q ch Hj Hr Hq Hc.
    rewrite get_transpose_tabulate
      by (try apply pixel_index_lt; assumption).
    unfold get4. rewrite E1, E2, E3. f_equal. ring.
  - intros j Hj. rewrite get_tabulate by lia. f_equal. lia.
Qed.

Lemma reshape_cell_spec_witness :
  exists X_train y_train X_test y_test,
    reshape_cell tiny_train_x tiny_train_y tiny_test_x tiny_test_y
      = Ok (X_train, y_train, X_test, y_test) /\
    has_shape X_train 4 2 /\ has_shape y_train 2 1 /\
    has_shape X_test 4 1 /\ has_shape y_test 1 1 /\
    get X_train 3 1 = get4 tiny_train_x 1 0 1 1 /\
    get y_train 1 0 = 0%float.
Proof.
  destruct (@reshape_cell_spec float _ tiny_train_x tiny_train_y tiny_test_x tiny_test_y
              eq_refl eq_refl eq_refl eq_refl eq_refl eq_refl eq_refl)
    as [Xtr [ytr [Xte [yte [E [S1 [S2 [S3 [S4 [G1 [G2 _]]]]]]]]]]].
  exists Xtr, ytr, Xte, yte.
  split; [exact E|]. split; [exact S1|]. split; [exact S2|].
  split; [exact S3|]. split; [exact S4|].
  split.
  - exact (G1 1 0 1 1 (le_n 2) (le_n 1) (le_n 2) (le_n 2)).
  - exact (G2 1 (le_n 2)).
Defined.

(** The cell succeeds exactly when the sizes agree, and otherwise raises
    ValueError: one label per training picture, test pictures that hold as
    many values as the training pictures, one label per test picture. *)
Theorem reshape_cell_errors {T : Type} `{Scalar T}
    (trx : ndarray4 T) (try_ : list T) (tex : ndarray4 T) (tey : list T) :
  nd4_ok trx -> nd4_ok tex ->
  let agree :=
    length try_ = shape0 trx /\
    shape0 tex * (shape1 tex * shape2 tex * shape3 tex)
      = shape0 tex * (shape1 trx * shape2 trx * shape3 trx) /\
    length tey = shape0 tex in
  (agree -> exists out, reshape_cell trx try_ tex tey = Ok out) /\
  (~ agree -> reshape_cell trx try_ tex tey = Raise ValueError).
Proof.
  intros Hx Hx' agree. unfold nd4_ok in Hx, Hx'. split.
  - intros [Hy [Hsize Hy']]. eexists.
    apply (reshape_cell_ok trx try_ tex tey eq_refl); congruence.
  - intros Hno. unfold reshape_cell. cbv zeta.
    rewrite (reshape_ok _ _ _ Hx). cbn [bind].
    destruct (Nat.eq_dec (length try_) (shape0 trx)) as [Hy | Hy];
      [|rewrite reshape_bad by lia; reflexivity].
    rewrite reshape_ok by lia. cbn [bind].
    destruct (Nat.eq_dec (length (buffer tex))
                (shape0 tex * (shape1 trx * shape2 trx * shape3 trx)))
      as [Hs | Hs]; [|rewrite reshape_bad by exact Hs; reflexivity].
    rewrite (reshape_ok _ _ _ Hs). cbn [bind].
    destruct (Nat.eq_dec (length tey) (shape0 tex)) as [Hy' | Hy'];
      [|rewrite reshape_bad by lia; reflexivity].
    exfalso. apply Hno. repeat split; congruence.
Qed.

Lemma reshape_cell_errors_witness :
  (exists out,
     reshape_cell tiny_train_x tiny_train_y tiny_test_x tiny_test_y = Ok out) /\
  reshape_cell tiny_train_x [1%float] tiny_test_x tiny_test_y = Raise ValueError.
Proof.
  split.
  - apply (proj1 (@reshape_cell_errors float _ tiny_train_x tiny_train_y
                    tiny_test_x tiny_test_y eq_refl eq_refl)).
    repeat split; reflexivity.
  - apply (proj2 (@reshape_cell_errors float _ tiny_train_x [1%float]
                    tiny_test_x tiny_test_y eq_refl eq_refl)).
    intros [Hy _]. discriminate Hy.
Defined.

(** ** How the training cell stops *)

Section TrainingStops.
Context {T : Type} `{Scalar T}.

(** An exception in [cost] ends the iteration before anything is
    assigned. *)
Lemma gd_body_cost_raises (lr : T) (X_train y_train A : ndarray T)
    (i : nat) (g : globals T) (e : pyerr) :
  predict (g_W g) X_train (g_b g) = Ok A ->
  cost (transpose y_train) A = Raise e ->
  gd_body lr X_train y_train i g = (g, Raise e).
Proof.
  intros EA EC. unfold gd_body, cbind, read, lift. rewrite EA, EC. reflexivity.
Qed.

Lemma train_cost_raises (lr : T) (X_train y_train A : ndarray T)
    (k : nat) (e : pyerr) :
  predict (zeros (nrows X_train) 1) X_train (scalar zero) = Ok A ->
  cost (transpose y_train) A = Raise e ->
  train (S k) lr X_train y_train = (init_globals X_train, Raise e).
Proof.
  intros EA EC. unfold train. cbn [for_range]. unfold cbind at 1.
  rewrite (gd_body_cost_raises lr X_train y_train 0 (init_globals X_train) EA EC).
  reflexivity.
Qed.

(** No example: the loss is an empty row, and [1 / m] raises. *)
Lemma cost_of_no_example (Y A : ndarray T) :
  nrows Y = nrows A -> ncols Y = 0 -> ncols A = 0 ->
  cost Y A = Raise ZeroDivisionError.
Proof.
  intros Er Ey Ea. unfold cost.
  rewrite broadcast2_same by (cbn [map_nd nrows ncols tabulate]; congruence).
  cbn [bind].
  rewrite broadcast2_same by (cbn [map_nd nrows ncols tabulate]; congruence).
  cbn [bind].
  rewrite broadcast2_same by reflexivity. cbn [bind].
  rewrite Ey. reflexivity.
Qed.

(** Rows of different lengths, neither of length one, do not broadcast. *)
Lemma cost_of_mismatch (Y A : ndarray T) :
  nrows Y = nrows A -> ncols Y <> ncols A -> ncols Y <> 1 -> ncols A <> 1 ->
  cost Y A = Raise ValueError.
Proof.
  intros Er Hne Hy Ha. unfold cost, broadcast2 at 1.
  cbn [map_nd nrows ncols tabulate].
  rewrite Er, bdim_same. cbn [bind]. unfold bdim.
  destruct (Nat.eqb_spec (ncols Y) (ncols A)); [contradiction|].
  destruct (Nat.eqb_spec (ncols Y) 1); [contradiction|].
  destruct (Nat.eqb_spec (ncols A) 1); [contradiction|].
  reflexivity.
Qed.

Lemma train_of_no_example (lr : T) (X_train y_train : ndarray T) (n k : nat) :
  has_shape X_train n 0 -> has_shape y_train 0 1 ->
  train (S k) lr X_train y_train
  = (init_globals X_train, Raise ZeroDivisionError).
Proof.
  intros HX Hy. pose proof HX as [HXr _]. destruct Hy as [Hyr [Hyc _]].
  apply train_cost_raises
    with (A := tabulate 1 0 (fun _ j => sigmoid1 (score (zeros n 1) X_train zero n j))).
  - rewrite HXr. apply (predict_entries zero (has_shape_zeros n 1) HX).
  - apply cost_of_no_example; unfold transpose; cbn [nrows ncols tabulate];
      congruence.
Qed.

End TrainingStops.

(** With at least one iteration to run, the training cell stops in the
    first iteration, before any assignment: with ZeroDivisionError when
    there is no example, and with ValueError when the number of labels is
    neither the number of examples nor one (and there are at least two
    examples).  W, b and costs keep their initial values. *)
Theorem train_stops_on_bad_data {T : Type} `{Scalar T}
    (lr : T) (X_train y_train : ndarray T) (n m m' k : nat) :
  has_shape X_train n m -> has_shape y_train m' 1 ->
  (m = 0 -> m' = 0 ->
   train (S k) lr X_train y_train
   = (init_globals X_train, Raise ZeroDivisionError)) /\
  (m' <> m -> m' <> 1 -> m <> 1 ->
   train (S k) lr X_train y_train = (init_globals X_train, Raise ValueError)).
Proof.
  intros HX Hy. split.
  - intros -> ->. apply (train_of_no_example lr k HX Hy).
  - intros Hne Hm' Hm. pose proof HX as [HXr _]. destruct Hy as [Hyr [Hyc _]].
    apply train_cost_raises
      with (A := tabulate 1 m
                   (fun _ j => sigmoid1 (score (zeros n 1) X_train zero n j))).
    + rewrite HXr. apply (predict_entries zero (has_shape_zeros n 1) HX).
    + apply cost_of_mismatch; unfold transpose; cbn [nrows ncols tabulate];
        congruence.
Qed.

Lemma train_stops_on_bad_data_witness :
  train 1000 0x1.47ae147ae147bp-7%float
        (mk_nd 2 0 [[]; []] : ndarray float) (mk_nd 0 1 [])
  = (init_globals (mk_nd 2 0 [[]; []]), Raise ZeroDivisionError) /\
  train 1000 0x1.47ae147ae147bp-7%float scenario_X
        (mk_nd 3 1 [[1]; [0]; [1]]%float)
  = (init_globals scenario_X, Raise ValueError).
Proof.
  assert (H0 : has_shape (mk_nd 2 0 [[]; []] : ndarray float) 2 0)
    by (repeat split; reflexivity).
  assert (Hy0 : has_shape (mk_nd 0 1 [] : ndarray float) 0 1)
    by (repeat split; reflexivity).
  assert (HX : has_shape scenario_X 4 4) by (repeat split; reflexivity).
  assert (Hy : has_shape (mk_nd 3 1 [[1]; [0]; [1]]%float) 3 1)
    by (repeat split; reflexivity).
  split.
  - apply (proj1 (train_stops_on_bad_data 0x1.47ae147ae147bp-7%float 999 H0 Hy0));
      reflexivity.
  - apply (proj2 (train_stops_on_bad_data 0x1.47ae147ae147bp-7%float 999 HX Hy));
      lia.
Defined.

(** The reshape cell and the training cell compose: on the matrices that
    the reshape cell returns, training runs to the end without an
    exception when there is at least one training picture, and stops with
    ZeroDivisionError in its first iteration when there is none. *)
Theorem train_after_reshape {T : Type} `{Scalar T}
    (trx : ndarray4 T) (try_ : list T) (tex : ndarray4 T) (tey : list T)
    (X_train y_train X_test y_test : ndarray T) (lr : T) (k : nat) :
  nd4_ok trx ->
  reshape_cell trx try_ tex tey = Ok (X_train, y_train, X_test, y_test) ->
  (1 <= shape0 trx ->
   exists g, train k lr X_train y_train = (g, Ok tt) /\
             length (g_costs g) = recorded 0 k) /\
  (shape0 trx = 0 ->
   train (S k) lr X_train y_train
   = (init_globals X_train, Raise ZeroDivisionError)).
Proof.
  intros Hx E. unfold nd4_ok in Hx.
  unfold reshape_cell in E. cbv zeta in E.
  rewrite (reshape_ok _ _ _ Hx) in E. cbn [bind] in E.
  destruct (Nat.eq_dec (length try_) (shape0 trx * 1)) as [Hy | Hy];
    [|rewrite (reshape_bad _ _ _ Hy) in E; discriminate].
  rewrite (reshape_ok _ _ _ Hy) in E. cbn [bind] in E.
  destruct (reshape (buffer tex) (shape0 tex)
              (shape1 trx * shape2 trx * shape3 trx)) as [Xte|]; [|discriminate].
  cbn [bind] in E.
  destruct (reshape tey (shape0 tex) 1) as [yte|]; [|discriminate].
  cbn [bind] in E. injection E as <- <- _ _.
  pose proof (has_shape_transpose_tabulate (shape0 trx)
                (shape1 trx * shape2 trx * shape3 trx)
                (fun i j => nth (i * (shape1 trx * shape2 trx * shape3 trx) + j)
                              (buffer trx) zero)) as HX.
  pose proof (has_shape_tabulate (shape0 trx) 1
                (fun i j => nth (i * 1 + j) try_ zero)) as HY.
  split.
  - intros Hm. destruct (train_runs lr k HX HY) as [g [Eg [_ Hc]]]; [lia|].
    exists g. split; assumption.
  - intros Hm.
    apply (train_of_no_example lr (n := shape1 trx * shape2 trx * shape3 trx) k).
    + destruct HX as [HXr [HXc HXs]]. repeat split; congruence.
    + destruct HY as [HYr [HYc HYs]]. repeat split; congruence.
Qed.

Lemma train_after_reshape_witness :
  exists X_train y_train X_test y_test g,
    reshape_cell tiny_train_x tiny_train_y tiny_test_x tiny_test_y
      = Ok (X_train, y_train, X_test, y_test) /\
    train 1000 0x1.47ae147ae147bp-7%float X_train y_train = (g, Ok tt) /\
    length (g_costs g) = 10.
Proof.
  assert (Hok : exists out,
             reshape_cell tiny_train_x tiny_train_y tiny_test_x tiny_test_y
             = Ok out) by (eexists; reflexivity).
  destruct Hok as [[[[Xtr ytr] Xte] yte] E].
  destruct (proj1 (@train_after_reshape float _ tiny_train_x tiny_train_y
                     tiny_test_x tiny_test_y Xtr ytr Xte yte
                     0x1.47ae147ae147bp-7%float 1000 eq_refl E))
    as [g [Eg Hc]]; [repeat constructor|].
  exists Xtr, ytr, Xte, yte, g.
  split; [exact E|]. split; [exact Eg | exact Hc].
Defined.

(** ** The cost, beyond the initial parameters *)





Section NaNPropagation.

Lemma is_nan_true (x : float) : is_nan x = true <-> Prim2SF x = S754_nan.
Proof.
  unfold is_nan. rewrite FloatAxioms.eqb_spec.
  destruct (Prim2SF x) as [[|] | [|] | | [|] m e]; unfold SFeqb, SFcompare;
    rewrite ?Z.compare_refl, ?Pos.compare_cont_refl; cbn;
    split; intros E; try discriminate; reflexivity.
Qed.

Lemma is_nan_add (x y : float) :
  is_nan x = true \/ is_nan y = true -> is_nan (x + y)%float = true.
Proof.
  rewrite !is_nan_true, FloatAxioms.add_spec. unfold SF64add, SFadd.
  intros [-> | ->]; [reflexivity|].
  destruct (Prim2SF x) as [? | ? | | ? ? ?]; reflexivity.
Qed.

Lemma is_nan_sub_r (x y : float) :
  is_nan y = true -> is_nan (x - y)%float = true.
Proof.
  rewrite !is_nan_true, FloatAxioms.sub_spec. unfold SF64sub, SFsub.
  intros ->. destruct (Prim2SF x) as [? | ? | | ? ? ?]; reflexivity.
Qed.

Lemma is_nan_mul_r (x y : float) :
  is_nan y = true -> is_nan (x * y)%float = true.
Proof.
  rewrite !is_nan_true, FloatAxioms.mul_spec. unfold SF64mul, SFmul.
  intros ->. destruct (Prim2SF x) as [? | ? | | ? ? ?]; reflexivity.
Qed.

(** One NaN term makes the whole sum NaN. *)
Lemma sum_n_nan (f : nat -> float) (n j : nat) :
  j < n -> is_nan (f j) = true -> is_nan (sum_n f n) = true.
Proof.
  intros Hj Hnan. induction n as [|n IH]; [lia|].
  rewrite sum_n_S. apply is_nan_add.
  destruct (Nat.eq_dec j n) as [-> | Hne].
  - right. exact Hnan.
  - left. apply IH. lia.
Qed.

End NaNPropagation.

(** In binary64, as soon as one prediction has saturated at its label
    (exactly 1.0 for the label 1, or exactly 0.0 for the label 0), the cost
    is NaN, whatever the other examples: the loss of that example contains
    0 * log(0). *)
Theorem cost_nan_when_saturated (Y A : ndarray float) (m j : nat) :
  has_shape Y 1 m -> has_shape A 1 m -> j < m ->
  (get A 0 j = 1%float /\ get Y 0 j = 1%float) \/
  (get A 0 j = 0%float /\ get Y 0 j = 0%float) ->
  exists J, cost Y A = Ok (scalar J) /\ is_nan J = true.
Proof.
  intros HY HA Hj Hsat.
  rewrite (cost_entries HY HA) by lia.
  eexists. split; [reflexivity|].
  apply is_nan_mul_r. apply sum_n_nan with (j := j); [exact Hj|].
  destruct Hsat as [[-> ->] | [-> ->]]; reflexivity.
Qed.

Lemma cost_nan_when_saturated_witness :
  has_shape saturated_Y 1 2 /\ has_shape saturated_A 1 2 /\
  exists J, cost saturated_Y saturated_A = Ok (scalar J) /\ is_nan J = true.
Proof.
  assert (HY : has_shape saturated_Y 1 2) by (repeat split; reflexivity).
  assert (HA : has_shape saturated_A 1 2) by (repeat split; reflexivity).
  split; [exact HY|]. split; [exact HA|].
  apply (cost_nan_when_saturated (j := 1) HY HA); [lia|].
  left. split; reflexivity.
Defined.

(** ** The decision rule *)





(** ** The accuracy cell counts pairs *)

Lemma sum_n_plus_R (f g : nat -> R) (n : nat) :
  sum_n (fun k => (f k + g k)%R) n = (sum_n f n + sum_n g n)%R.
Proof.
  induction n as [|n IH].
  - change (0 = 0 + 0)%R. ring.
  - rewrite !sum_n_S, IH. change add with Rplus. ring.
Qed.

Lemma sum_n_scal_R (c : R) (f : nat -> R) (n : nat) :
  sum_n (fun k => (c * f k)%R) n = (c * sum_n f n)%R.
Proof.
  induction n as [|n IH].
  - change (0 = c * 0)%R. ring.
  - rewrite !sum_n_S, IH. change add with Rplus. ring.
Qed.

Lemma abs_diff_bits (a b : R) :
  a = 0%R \/ a = 1%R -> b = 0%R \/ b = 1%R ->
  Rabs (a - b) = (a + b + -2 * a * b)%R.
Proof.
  intros [-> | ->] [-> | ->]; unfold Rabs; destruct (Rcase_abs _); lra.
Qed.

(** The sum over all pairs of |P j - y i|, for entries that are 0 or 1. *)
Lemma pairs_sum (P y : nat -> R) (m : nat) :
  (forall j, j < m -> P j = 0%R \/ P j = 1%R) ->
  (forall i, i < m -> y i = 0%R \/ y i = 1%R) ->
  sum_n (fun i => sum_n (fun j => Rabs (P j - y i)) m) m =
  (INR m * sum_n P m + INR m * sum_n y m + -2 * sum_n P m * sum_n y m)%R.
Proof.
  intros HP Hy.
  rewrite (sum_n_ext _
             (fun i => (sum_n P m + (INR m * y i + (-2 * sum_n P m) * y i))%R)).
  - rewrite sum_n_plus_R, sum_n_const_R, sum_n_plus_R, !sum_n_scal_R. ring.
  - intros i Hi.
    rewrite (sum_n_ext _ (fun j => (P j + (y i + (-2 * y i) * P j))%R)).
    + rewrite sum_n_plus_R, sum_n_plus_R, sum_n_const_R, sum_n_scal_R. ring.
    + intros j Hj. rewrite abs_diff_bits by auto. ring.
Qed.

(** In exact arithmetic, with labels 0 or 1, the accuracy that the cell
    prints depends only on the number p of examples predicted 1 and on the
    number q of examples labelled 1, not on which examples they are: it is
    100 - 100 (p (m - q) + (m - p) q) / m^2. *)
Theorem accuracy_counts (W X y : ndarray R) (b0 : R) (n m : nat) :
  has_shape W n 1 -> has_shape X n m -> has_shape y m 1 -> 1 <= m ->
  (forall i, i < m -> get y i 0 = 0%R \/ get y i 0 = 1%R) ->
  exists P,
    (A <- predict W X (scalar b0) ;; binarize A) = Ok P /\
    (forall j, j < m -> get P 0 j = 0%R \/ get P 0 j = 1%R) /\
    let p := sum_n (fun j => get P 0 j) m in
    let q := sum_n (fun i => get y i 0) m in
    accuracy W X (scalar b0) y =
    Ok (100 - 100 * ((p * (INR m - q) + (INR m - p) * q) / (INR m * INR m)))%R.
Proof.
  intros HW HX [Hyr [Hyc Hys]] Hm Hlab.
  unfold accuracy.
  rewrite (predict_entries b0 HW HX). cbn [bind].
  rewrite (binarize_rows (has_shape_tabulate 1 m _)) by lia. cbn [bind].
  set (P := tabulate 1 m _).
  assert (HP : forall j, j < m -> get P 0 j = 0%R \/ get P 0 j = 1%R).
  { intros j Hj. unfold P. rewrite !get_tabulate by lia. cbn [Nat.eqb].
    unfold threshold. destruct (gtb _ _); [right | left]; reflexivity. }
  exists P. split; [reflexivity|]. split; [exact HP|].
  rewrite broadcast2_row_col by (try exact Hyc; reflexivity). cbn [bind].
  unfold mean, map_nd. cbn [nrows ncols tabulate]. rewrite Hyr.
  cbv zeta. f_equal.
  rewrite (sum_n_ext _
             (fun i => sum_n (fun j => Rabs (get P 0 j - get y i 0)) m)).
  - rewrite (@pairs_sum (fun j => get P 0 j) (fun i => get y i 0) m HP Hlab).
    unfold sub, mul, div, of_int, exact.
    replace (ncols P) with m by reflexivity.
    rewrite mult_INR, (INR_IZR_INZ 100).
    change (Z.of_nat 100) with 100%Z.
    assert (Hm0 : INR m <> 0%R) by (apply not_0_INR; lia).
    field. exact Hm0.
  - intros i Hi. replace (ncols P) with m by reflexivity.
    apply sum_n_ext. intros j Hj.
    rewrite !get_tabulate by assumption. reflexivity.
Qed.

Lemma accuracy_counts_witness :
  exists P,
    (A <- predict real_W real_X real_b ;; binarize A) = Ok P /\
    (forall j, j < 3 -> get P 0 j = 0%R \/ get P 0 j = 1%R) /\
    let p := sum_n (fun j => get P 0 j) 3 in
    let q := sum_n (fun i => get real_labels i 0) 3 in
    accuracy real_W real_X real_b real_labels =
    Ok (100 - 100 * ((p * (INR 3 - q) + (INR 3 - p) * q) / (INR 3 * INR 3)))%R.
Proof.
  assert (HW : has_shape real_W 2 1) by (repeat split; reflexivity).
  assert (HX : has_shape real_X 2 3) by (repeat split; reflexivity).
  assert (Hy : has_shape real_labels 3 1) by (repeat split; reflexivity).
  apply (accuracy_counts 0%R HW HX Hy); [lia|].
  intros i Hi.
  destruct i as [|[|[|i]]]; [right | left | right | lia]; reflexivity.
Defined.

(** ** binarize on arrays of any shape *)

(** [binarize] thresholds row 0 and nothing else: on an array with at
    least one row every other row is returned as it was; on an array with
    columns but no row the first access [A[0, 0]] raises IndexError; an
    array without columns is returned unchanged. *)
Theorem binarize_first_row_only {T : Type} `{Scalar T}
    (A : ndarray T) (r c : nat) :
  has_shape A r c ->
  (1 <= r ->
   exists B,
     binarize A = Ok B /\ has_shape B r c /\
     (forall j, j < c -> get B 0 j = threshold (get A 0 j)) /\
     (forall i j, 1 <= i < r -> j < c -> get B i j = get A i j)) /\
  (r = 0 -> 1 <= c -> binarize A = Raise IndexError) /\
  (c = 0 -> binarize A = Ok A).
Proof.
  intros HA. split; [|split].
  - intros Hr. rewrite (binarize_rows HA) by lia.
    eexists. split; [reflexivity|]. split; [apply has_shape_tabulate|].
    split.
    + intros j Hj. rewrite get_tabulate by lia. reflexivity.
    + intros i j Hi Hj. rewrite get_tabulate by lia.
      destruct (Nat.eqb_spec i 0); [lia | reflexivity].
  - intros Hr Hc. destruct HA as [HAr [HAc _]].
    unfold binarize. rewrite HAc.
    destruct c as [|c]; [lia|]. cbn [seq binarize_loop].
    unfold set_item. rewrite HAr, Hr. reflexivity.
  - intros Hc. destruct HA as [_ [HAc _]].
    unfold binarize. rewrite HAc, Hc. reflexivity.
Qed.

Lemma binarize_first_row_only_witness :
  has_shape two_row_array 2 2 /\
  exists B,
    binarize two_row_array = Ok B /\ has_shape B 2 2 /\
    (forall j, j < 2 -> get B 0 j = threshold (get two_row_array 0 j)) /\
    (forall i j, 1 <= i < 2 -> j < 2 -> get B i j = get two_row_array i j).
Proof.
  assert (HA : has_shape two_row_array 2 2) by (repeat split; reflexivity).
  split; [exact HA|].
  apply (proj1 (binarize_first_row_only HA)). lia.
Defined.

(** ** The preparation notebook, cell after cell *)

Section IngestionMore.
Variable image : Type.
Variable imread_resize : string -> result image.

Lemma load_images_length (names : list string) (acc images : list image) :
  Prepare.load_images imread_resize names acc = Ok images ->
  length images = length names + length acc.
Proof.
  revert acc. induction names as [|f names IH]; intros acc E; simpl in E.
  - injection E as <-. reflexivity.
  - destruct (imread_resize (Prepare.image_path f)) as [img | e];
      [|discriminate].
    cbn [bind] in E. apply IH in E. rewrite E. simpl. lia.
Qed.

Lemma load_images_fails (good : list Prepare.row) (decoded : list image)
    (bad : string) (rest : list string) (acc : list image) (e : pyerr) :
  Prepare.decodes imread_resize good decoded ->
  imread_resize (Prepare.image_path bad) = Raise e ->
  Prepare.load_images imread_resize
    (map Prepare.file_name good ++ bad :: rest) acc = Raise e.
Proof.
  intros D Hbad. revert acc. induction D as [|r img good decoded Hr D IH];
    intros acc; simpl.
  - rewrite Hbad. reflexivity.
  - rewrite Hr. cbn [bind]. apply IH.
Qed.


Lemma decodes_length (data : list Prepare.row) (decoded : list image) :
  Prepare.decodes imread_resize data decoded -> length decoded = length data.
Proof. intros D. symmetry. apply (Forall2_length D). Qed.

End IngestionMore.

(** Whenever the ingestion cell returns, it returns one picture and one
    label for every row of the label file. *)
Theorem ingest_one_label_per_image (image : Type)
    (imread_resize : string -> result image) (fs : Prepare.filesystem)
    (images : list image) (labels : list Z) :
  Prepare.ingest_cell imread_resize fs = Ok (images, labels) ->
  exists data,
    Prepare.read_csv fs "./labels.csv" = Ok data /\
    length images = length data /\ length labels = length data.
Proof.
  unfold Prepare.ingest_cell. intros E.
  destruct (Prepare.read_csv fs "./labels.csv") as [data | e]; [|discriminate].
  cbn [bind] in E.
  destruct (Prepare.load_images imread_resize (map Prepare.file_name data) [])
    as [imgs | e] eqn:L; [|discriminate].
  cbn [bind] in E. injection E as <- <-.
  exists data. split; [reflexivity|].
  apply load_images_length in L. rewrite length_map in L.
  split; [simpl in L; lia|].
  rewrite load_labels_rev, app_nil_r, length_rev, length_map. reflexivity.
Qed.

Lemma ingest_one_label_per_image_witness :
  exists data,
    Prepare.read_csv two_rows "./labels.csv" = Ok data /\
    length ["./images/b.jpg"; "./images/a.jpg"]%string = length data /\
    length [0; 1]%Z = length data.
Proof.
  exact (@ingest_one_label_per_image string (fun p => Ok p) two_rows
           ["./images/b.jpg"; "./images/a.jpg"]%string [0; 1]%Z eq_refl).
Defined.

(** The ingestion cell stops at the first row, in the order of the label
    file, whose picture cannot be read, with the exception of that
    picture. *)
Theorem ingest_stops_at_first_failure (image : Type)
    (imread_resize : string -> result image) (fs : Prepare.filesystem)
    (good : list Prepare.row) (decoded : list image)
    (bad : Prepare.row) (rest : list Prepare.row) (e : pyerr) :
  Prepare.read_csv fs "./labels.csv" = Ok (good ++ bad :: rest) ->
  Prepare.decodes imread_resize good decoded ->
  imread_resize (Prepare.image_path (Prepare.file_name bad)) = Raise e ->
  Prepare.ingest_cell imread_resize fs = Raise e.
Proof.
  intros R D Hbad. unfold Prepare.ingest_cell. rewrite R. cbn [bind].
  rewrite map_app. cbn [map].
  rewrite (@load_images_fails image imread_resize good decoded
             (Prepare.file_name bad) (map Prepare.file_name rest) [] e D Hbad).
  reflexivity.
Qed.

Lemma ingest_stops_at_first_failure_witness :
  Prepare.ingest_cell only_a two_rows = Raise FileNotFoundError.
Proof.
  apply (@ingest_stops_at_first_failure string only_a two_rows
           [Prepare.mk_row "a.jpg" 1] ["picture a"%string]
           (Prepare.mk_row "b.jpg" 0) [] FileNotFoundError).
  - reflexivity.
  - repeat constructor.
  - reflexivity.
Defined.



(** Ingestion followed by the split keeps every label with its picture:
    position i of the training partition holds the picture and the label
    of row i of the reversed label file, and position i of the test
    partition those of row k + i, with k the training count. *)
Theorem split_keeps_alignment (image : Type)
    (imread_resize : string -> result image) (fs : Prepare.filesystem)
    (data : list Prepare.row) (decoded : list image) :
  Prepare.read_csv fs "./labels.csv" = Ok data ->
  Prepare.decodes imread_resize data decoded ->
  exists k ds,
    Prepare.training_examples_count (length data) = Ok k /\
    (p <- Prepare.ingest_cell imread_resize fs ;;
     Prepare.split_cell (fst p) (snd p)) = Ok ds /\
    (forall i r,
       i < Z.to_nat k -> nth_error (rev data) i = Some r ->
       nth_error (Prepare.training_set_y ds) i = Some (Prepare.is_guitar r) /\
       exists img,
         nth_error (Prepare.training_set_x ds) i = Some img /\
         imread_resize (Prepare.image_path (Prepare.file_name r)) = Ok img) /\
    (forall i r,
       nth_error (rev data) (Z.to_nat k + i) = Some r ->
       nth_error (Prepare.test_set_y ds) i = Some (Prepare.is_guitar r) /\
       exists img,
         nth_error (Prepare.test_set_x ds) i = Some img /\
         imread_resize (Prepare.image_path (Prepare.file_name r)) = Ok img).
Proof.
  intros R D.
  destruct (training_examples_count_total (length data)) as [k [Ek Hk]].
  exists k. eexists. split; [exact Ek|].
  unfold Prepare.ingest_cell. rewrite R. cbn [bind].
  rewrite (load_images_rev [] D). cbn [bind fst snd].
  rewrite load_labels_rev, !app_nil_r.
  unfold Prepare.split_cell.
  rewrite length_rev, (@decodes_length image imread_resize data decoded D), Ek.
  cbn [bind].
  rewrite !np_split_nonneg by exact Hk.
  split; [reflexivity|].
  cbn [Prepare.training_set_x Prepare.test_set_x
       Prepare.training_set_y Prepare.test_set_y].
  split.
  - intros i r Hi Hr. rewrite !nth_error_firstn.
    destruct (Nat.ltb_spec i (Z.to_nat k)) as [_ | Hge]; [|lia].
    split.
    + rewrite <- map_rev. apply map_nth_error. exact Hr.
    + apply (decodes_nth i (decodes_rev D) Hr).
  - intros i r Hr. rewrite !nth_error_skipn.
    split.
    + rewrite <- map_rev. apply map_nth_error. exact Hr.
    + apply (decodes_nth (Z.to_nat k + i) (decodes_rev D) Hr).
Qed.

Lemma split_keeps_alignment_witness :
  exists k ds,
    Prepare.training_examples_count 2 = Ok k /\
    (p <- Prepare.ingest_cell (fun p => Ok p) two_rows ;;
     Prepare.split_cell (fst p) (snd p)) = Ok ds /\
    Prepare.training_set_x ds = ["./images/b.jpg"]%string /\
    Prepare.training_set_y ds = [0]%Z /\
    Prepare.test_set_x ds = ["./images/a.jpg"]%string /\
    Prepare.test_set_y ds = [1]%Z.
Proof.
  destruct (@split_keeps_alignment string (fun p => Ok p) two_rows
              [Prepare.mk_row "a.jpg" 1; Prepare.mk_row "b.jpg" 0]
              ["./images/a.jpg"; "./images/b.jpg"]%string eq_refl
              ltac:(repeat constructor))
    as [k [ds [Ek [E _]]]].
  exists k, ds. split; [exact Ek|]. split; [exact E|].
  vm_compute in E. injection E as <-. repeat split; reflexivity.
Defined.

(** Below 2^49 pictures the split never raises; the training partition is
    empty exactly when there are fewer than two pictures, and the test
    partition exactly when there is none. *)
Theorem split_partitions_nonempty (image : Type)
    (images : list image) (labels : list Z) :
  (Z.of_nat (length images) < 2 ^ 49)%Z ->
  exists ds,
    Prepare.split_cell images labels = Ok ds /\
    (Prepare.training_set_x ds = [] <-> length images <= 1) /\
    (Prepare.test_set_x ds = [] <-> length images = 0).
Proof.
  intros Hsmall.
  destruct (training_count_bounds (length images) Hsmall) as [k [Ek Hb]].
  pose proof (Z.div_mod (7 * Z.of_nat (length images)) 10 ltac:(lia)) as HF.
  pose proof (Z.mod_pos_bound (7 * Z.of_nat (length images)) 10 ltac:(lia)) as HFr.
  destruct (training_examples_count_total (length images)) as [k' [Ek' Hk]].
  rewrite Ek in Ek'. injection Ek' as <-.
  unfold Prepare.split_cell. rewrite Ek. cbn [bind].
  rewrite !np_split_nonneg by exact Hk.
  eexists. split; [reflexivity|].
  cbn [Prepare.training_set_x Prepare.test_set_x].
  assert (Hk1 : (1 <= k)%Z <-> 2 <= length images).
  { split; intros Hge.
    - lia.
    - destruct (Nat.eq_dec (length images) 2) as [E2 | Hne].
      + rewrite E2 in Ek.
        assert (E : Prepare.training_examples_count 2 = Ok 1%Z)
          by (vm_compute; reflexivity).
        rewrite E in Ek. injection Ek as <-. lia.
      + lia. }
  split.
  - rewrite <- length_zero_iff_nil, length_firstn. lia.
  - rewrite <- length_zero_iff_nil, length_skipn. lia.
Qed.

Lemma split_partitions_nonempty_witness :
  exists ds,
    Prepare.split_cell ["only picture"%string] [1%Z] = Ok ds /\
    Prepare.training_set_x ds = [] /\
    Prepare.test_set_x ds = ["only picture"%string].
Proof.
  destruct (@split_partitions_nonempty string ["only picture"%string] [1%Z]
              eq_refl) as [ds [E [Htrain _]]].
  exists ds. split; [exact E|]. split.
  - apply Htrain. apply le_n.
  - vm_compute in E. injection E as <-. reflexivity.
Defined.

(** ** The gradient functions compute the gradient of the cost *)

Section Derivatives.
Local Open Scope R_scope.
Local Unset Implicit Arguments.

Lemma derive_sigmoid (z : R) :
  derivable_pt_lim (fun u => sigmoid1 u) z (sigmoid1 z * (1 - sigmoid1 z)).
Proof.
  pose proof (exp_pos (- z)) as He.
  assert (D2 : derivable_pt_lim (fct_cte 1 + comp Rtrigo_def.exp (- id))%F z
                 (0 + Rtrigo_def.exp (- z) * - 1)).
  { apply derivable_pt_lim_plus; [apply derivable_pt_lim_const|].
    apply (derivable_pt_lim_comp (- id)%F Rtrigo_def.exp z (- 1)
             (Rtrigo_def.exp (- z))).
    - apply derivable_pt_lim_opp, derivable_pt_lim_id.
    - apply derivable_pt_lim_exp. }
  pose proof (derivable_pt_lim_div (fct_cte 1) _ z 0 _
                (derivable_pt_lim_const 1 z) D2) as D.
  unfold plus_fct, fct_cte, comp, opp_fct, id in D.
  specialize (D ltac:(lra)).
  apply derivable_pt_lim_ext
    with (g := fun u => sigmoid1 u) in D; [|intros u; reflexivity].
  replace (sigmoid1 z * (1 - sigmoid1 z))
    with ((0 * (1 + Rtrigo_def.exp (- z))
           - (0 + Rtrigo_def.exp (- z) * - 1) * 1)
          / (1 + Rtrigo_def.exp (- z))²); [exact D|].
  change (sigmoid1 z) with (1 / (1 + Rtrigo_def.exp (- z))).
  unfold Rsqr. field. lra.
Qed.

Lemma derive_loss (y a : R) :
  0 < a < 1 ->
  derivable_pt_lim (fun u => loss1 y u) a ((a - y) / (a * (1 - a))).
Proof.
  intros Ha.
  assert (D1 : derivable_pt_lim (mult_real_fct (- y) ln) a (- y * / a)).
  { apply derivable_pt_lim_scal, derivable_pt_lim_ln. lra. }
  assert (D2 : derivable_pt_lim
                 (mult_real_fct (1 - y) (comp ln (fct_cte 1 - id)))%F a
                 ((1 - y) * (/ (1 - a) * (0 - 1)))).
  { apply derivable_pt_lim_scal.
    apply (derivable_pt_lim_comp (fct_cte 1 - id)%F ln a (0 - 1) (/ (1 - a))).
    - apply derivable_pt_lim_minus;
        [apply derivable_pt_lim_const | apply derivable_pt_lim_id].
    - apply derivable_pt_lim_ln. unfold minus_fct, fct_cte, id. lra. }
  pose proof (derivable_pt_lim_minus _ _ a _ _ D1 D2) as D.
  apply derivable_pt_lim_ext
    with (g := fun u => loss1 y u) in D; [|intros u; reflexivity].
  replace ((a - y) / (a * (1 - a)))
    with (- y * / a - (1 - y) * (/ (1 - a) * (0 - 1))); [exact D|].
  field. lra.
Qed.

(** The loss of one example along a differentiable score. *)
Lemma derive_example (s : R -> R) (y t0 d : R) :
  derivable_pt_lim s t0 d ->
  derivable_pt_lim (fun t => loss1 y (sigmoid1 (s t))) t0
    (d * (sigmoid1 (s t0) - y)).
Proof.
  intros Ds.
  pose proof (sigmoid_open_interval (s t0)) as Ha.
  pose proof (derivable_pt_lim_comp s (fun u => sigmoid1 u) t0 _ _
                Ds (derive_sigmoid (s t0))) as D1.
  pose proof (derivable_pt_lim_comp _ (fun u => loss1 y u) t0 _ _
                D1 (derive_loss y _ Ha)) as D.
  apply derivable_pt_lim_ext
    with (g := fun t => loss1 y (sigmoid1 (s t))) in D;
    [|intros t; reflexivity].
  unfold comp in D.
  set (a := sigmoid1 (s t0)) in *.
  replace (d * (a - y))
    with ((a - y) / (a * (1 - a)) * (a * (1 - a) * d)); [exact D|].
  field. lra.
Qed.

Lemma derive_sum_n (f : nat -> R -> R) (f' : nat -> R) (t0 : R) (n : nat) :
  (forall k, (k < n)%nat -> derivable_pt_lim (f k) t0 (f' k)) ->
  derivable_pt_lim (fun t => sum_n (fun k => f k t) n) t0 (sum_n f' n).
Proof.
  induction n as [|n IH]; intros Hf.
  - apply (derivable_pt_lim_const 0 t0).
  - rewrite sum_n_S.
    apply derivable_pt_lim_ext
      with (f := ((fun t => sum_n (fun k => f k t) n) + f n)%F).
    + intros t. rewrite sum_n_S. reflexivity.
    + apply derivable_pt_lim_plus; [apply IH; intros; apply Hf; lia|].
      apply Hf. lia.
Qed.

(** The sum of x k over k < n, restricted to k = i. *)
Lemma sum_n_only (x : nat -> R) (i n : nat) :
  sum_n (fun k => if (k =? i)%nat then x k else 0) n
  = if (i <? n)%nat then x i else 0.
Proof.
  induction n as [|n IH]; [reflexivity|].
  rewrite sum_n_S, IH. change add with Rplus.
  destruct (Nat.ltb_spec i n), (Nat.eqb_spec n i), (Nat.ltb_spec i (S n));
    subst; try lia; ring.
Qed.

(** The mean loss along differentiable scores. *)
Lemma derive_mean_loss (s : nat -> R -> R) (d y : nat -> R) (t0 : R) (m : nat) :
  (forall j, (j < m)%nat -> derivable_pt_lim (s j) t0 (d j)) ->
  derivable_pt_lim
    (fun t => 1 / INR m * sum_n (fun j => loss1 (y j) (sigmoid1 (s j t))) m) t0
    (1 / INR m * sum_n (fun j => d j * (sigmoid1 (s j t0) - y j)) m).
Proof.
  intros Ds.
  assert (D : derivable_pt_lim
                (fun t => sum_n (fun j => loss1 (y j) (sigmoid1 (s j t))) m) t0
                (sum_n (fun j => d j * (sigmoid1 (s j t0) - y j)) m)).
  { apply (derive_sum_n (fun j t => loss1 (y j) (sigmoid1 (s j t)))
             (fun j => d j * (sigmoid1 (s j t0) - y j)) t0 m).
    intros j Hj. apply derive_example, Ds, Hj. }
  apply (derivable_pt_lim_scal _ (1 / INR m)) in D.
  unfold mult_real_fct in D. exact D.
Qed.

(** The cost in closed form. *)
Lemma cost_of_formula (W X Y : ndarray R) (b0 : R) (n m : nat) :
  has_shape W n 1 -> has_shape X n m -> has_shape Y 1 m -> (1 <= m)%nat ->
  cost_of W X Y b0 =
  1 / INR m *
  sum_n (fun j => loss1 (get Y 0 j) (sigmoid1 (score W X b0 n j))) m.
Proof.
  intros HW HX HY Hm. unfold cost_of.
  rewrite (predict_entries b0 HW HX). cbn [bind].
  rewrite (cost_entries HY (has_shape_tabulate 1 m _)) by lia.
  unfold scalar. rewrite get_tabulate by lia.
  change (mul (div one (of_int m))) with (Rmult (1 / INR m)). f_equal.
  apply sum_n_ext. intros j Hj. rewrite get_tabulate by lia. reflexivity.
Qed.

Lemma has_shape_with_weight (W : ndarray R) (n i : nat) (t : R) :
  has_shape W n 1 -> has_shape (with_weight W i t) n 1.
Proof.
  intros [Hr [Hc _]]. unfold with_weight. rewrite Hr, Hc.
  apply has_shape_tabulate.
Qed.

(** The score of example j is affine in weight i, with slope [X[i, j]]. *)
Lemma derive_score_weight (W X : ndarray R) (b0 : R) (n i j : nat) (t0 : R) :
  has_shape W n 1 -> (i < n)%nat ->
  derivable_pt_lim (fun t => score (with_weight W i t) X b0 n j) t0 (get X i j).
Proof.
  intros [Hr [Hc _]] Hi. unfold score.
  apply derivable_pt_lim_ext
    with (f := ((fun t => sum_n (fun k => ((if (k =? i)%nat then t else get W k 0)
                                           * get X k j)%R) n)
                + fct_cte b0)%F).
  - intros t. unfold plus_fct, fct_cte. change add with Rplus. f_equal.
    apply sum_n_ext. intros k Hk. unfold with_weight.
    rewrite get_tabulate by lia. rewrite Nat.eqb_refl, andb_true_r.
    reflexivity.
  - replace (get X i j)
      with (sum_n (fun k => if (k =? i)%nat then get X k j else 0) n + 0).
    2: { rewrite sum_n_only. destruct (Nat.ltb_spec i n); [ring | lia]. }
    apply derivable_pt_lim_plus; [|apply derivable_pt_lim_const].
    apply (derive_sum_n
             (fun k t => (if (k =? i)%nat then t else get W k 0) * get X k j)
             (fun k => if (k =? i)%nat then get X k j else 0) t0 n).
    intros k Hk. destruct (k =? i)%nat.
    + apply derivable_pt_lim_ext with (f := (id * fct_cte (get X k j))%F);
        [intros t; reflexivity|].
      replace (get X k j) with (1 * get X k j + t0 * 0) at 2 by ring.
      apply (derivable_pt_lim_mult id (fct_cte (get X k j)) t0 1 0);
        [apply derivable_pt_lim_id | apply derivable_pt_lim_const].
    + apply (derivable_pt_lim_const (get W k 0 * get X k j) t0).
Qed.

Lemma derive_score_bias (W X : ndarray R) (n j : nat) (t0 : R) :
  derivable_pt_lim (fun t => score W X t n j) t0 1.
Proof.
  unfold score.
  apply derivable_pt_lim_ext
    with (f := (fct_cte (sum_n (fun k => (get W k 0 * get X k j)%R) n) + id)%F);
    [intros t; reflexivity|].
  replace 1 with (0 + 1) by ring.
  apply derivable_pt_lim_plus;
    [apply derivable_pt_lim_const | apply derivable_pt_lim_id].
Qed.

Lemma with_weight_same (W : ndarray R) (n i : nat) :
  has_shape W n 1 -> with_weight W i (get W i 0) = W.
Proof.
  intros HW. rewrite (tabulate_get HW) at 3.
  destruct HW as [Hr [Hc _]]. unfold with_weight. rewrite Hr, Hc.
  apply tabulate_ext. intros k l Hk Hl.
  destruct (Nat.eqb_spec k i), (Nat.eqb_spec l 0); subst; reflexivity.
Qed.

End Derivatives.

(** In exact arithmetic [dw] and [db] are the gradient of the cost: entry
    i of dw(X, A, Y), with A the predictions, is the derivative of
    J = cost(Y, predict(W, X, b)) with respect to the weight W[i], and
    db(A, Y) is its derivative with respect to b. *)
Theorem gradients_are_derivatives (W X Y : ndarray R) (b0 : R) (n m : nat) :
  has_shape W n 1 -> has_shape X n m -> has_shape Y 1 m -> 1 <= m ->
  exists A G gb,
    predict W X (scalar b0) = Ok A /\ dw X A Y = Ok G /\ db A Y = Ok gb /\
    (forall i, i < n ->
       derivable_pt_lim (fun t => cost_of (with_weight W i t) X Y b0)
                        (get W i 0) (get G i 0)) /\
    derivable_pt_lim (fun t => cost_of W X Y t) b0 (get gb 0 0).
Proof.
  intros HW HX HY Hm.
  pose proof (predict_entries b0 HW HX) as EA.
  set (A := tabulate 1 m (fun _ j => sigmoid1 (score W X b0 n j))) in *.
  assert (HA : has_shape A 1 m) by apply has_shape_tabulate.
  exists A. do 2 eexists.
  split; [exact EA|].
  split; [apply (dw_entries HX HA HY); lia|].
  split; [apply (db_entries HA HY); lia|].
  split.
  - intros i Hi. rewrite get_tabulate by lia.
    apply derivable_pt_lim_ext
      with (f := fun t =>
                   (1 / INR m *
                    sum_n (fun j => loss1 (get Y 0 j)
                                      (sigmoid1 (score (with_weight W i t) X b0 n j)))
                          m)%R).
    + intros t. symmetry.
      apply (cost_of_formula (with_weight W i t) X Y b0 n m
               (has_shape_with_weight W n i t HW) HX HY Hm).
    + pose proof (derive_mean_loss
                    (fun j t => score (with_weight W i t) X b0 n j)
                    (fun j => get X i j) (fun j => get Y 0 j) (get W i 0) m
                    (fun j _ => derive_score_weight W X b0 n i j (get W i 0) HW Hi))
        as D.
      cbv beta in D. rewrite (with_weight_same W n i HW) in D.
      unfold dw_formula.
      change (mul (div one (of_int m))) with (Rmult (1 / INR m)).
      erewrite sum_n_ext; [exact D|].
      intros j Hj. unfold A. rewrite get_tabulate by lia. reflexivity.
  - unfold scalar. rewrite get_tabulate by lia.
    apply derivable_pt_lim_ext
      with (f := fun t =>
                   (1 / INR m *
                    sum_n (fun j => loss1 (get Y 0 j)
                                      (sigmoid1 (score W X t n j))) m)%R).
    + intros t. symmetry. apply (cost_of_formula W X Y t n m HW HX HY Hm).
    + pose proof (derive_mean_loss
                    (fun j t => score W X t n j)
                    (fun _ => 1%R) (fun j => get Y 0 j) b0 m
                    (fun j _ => derive_score_bias W X n j b0))
        as D.
      cbv beta in D.
      unfold db_formula.
      change (mul (div one (of_int m))) with (Rmult (1 / INR m)).
      erewrite sum_n_ext; [exact D|].
      intros j Hj. unfold A. rewrite get_tabulate by lia.
      change (sub ?x ?y) with (x - y)%R. ring.
Qed.

Lemma gradients_are_derivatives_witness :
  exists A G gb,
    predict real_W real_X (scalar 0%R) = Ok A /\
    dw real_X A real_Y = Ok G /\ db A real_Y = Ok gb /\
    (forall i, i < 2 ->
       derivable_pt_lim (fun t => cost_of (with_weight real_W i t) real_X real_Y 0%R)
                        (get real_W i 0) (get G i 0)) /\
    derivable_pt_lim (fun t => cost_of real_W real_X real_Y t) 0%R (get gb 0 0).
Proof.
  assert (HW : has_shape real_W 2 1) by (repeat split; reflexivity).
  assert (HX : has_shape real_X 2 3) by (repeat split; reflexivity).
  assert (HY : has_shape real_Y 1 3) by (repeat split; reflexivity).
  apply (gradients_are_derivatives 0%R HW HX HY). lia.
Defined.

(** ** The recorded costs *)

Section RecordedCosts.
Context {T : Type} `{Scalar T}.




End RecordedCosts.



(** ** The order of the examples *)

Section ExampleOrder.
Local Open Scope R_scope.
Local Unset Implicit Arguments.






End ExampleOrder.


